(** * Foodiee recipe dashboard: the data manager and the specific-generation tab

    A shallow embedding of two React components of the dashboard,

    - [DataManagerTab]        (src/app/preferences/page.tsx, second document),
    - [SpecificGenerationTab] (src/components/recipe-admin/SpecificGenerationTab.tsx),

    as event-driven state machines.  A component is a record of its
    [useState] cells; the JavaScript event loop is a step function over the
    events the environment can deliver (a user gesture on a rendered control,
    the settlement of a pending request, the firing of an interval timer).
    An [async] handler runs up to its next [await], where it parks a
    continuation; the settlement event resumes it.  Everything a handler does
    to the outside world (HTTP calls, [alert], [console.*], timers) is
    appended to an effect log, so that statements about "what is sent" and
    "what is never called again" are statements about that log. *)

From Stdlib Require Import ZArith String Ascii List Bool Lia Floats.
From stdpp Require Import base option list gmap strings.

Local Open Scope string_scope.
Local Open Scope Z_scope.

(** ** JavaScript values used by the two components *)

Module Js.

(** A JavaScript [number] is an IEEE-754 double. *)
Definition number : Set := PrimFloat.float.

(** What a [catch (error)] clause can receive: an [Error] object, whose
    [message] the handlers print, or any other thrown value. *)
Inductive Error :=
| ErrorObject (message : string)
| ThrownValue.

(** [error instanceof Error ? error.message : fallback] *)
Definition message_or (fallback : string) (e : Error) : string :=
  match e with
  | ErrorObject m => m
  | ThrownValue => fallback
  end.

(** The code units [String.prototype.trim] strips, restricted to the
    one-byte ones: TAB, LF, VT, FF, CR and SPACE. *)
Definition is_white_space (c : ascii) : bool :=
  let n := nat_of_ascii c in
  ((9 <=? n)%nat && (n <=? 13)%nat) || (n =? 32)%nat.

Fixpoint trimStart (s : string) : string :=
  match s with
  | EmptyString => EmptyString
  | String c rest => if is_white_space c then trimStart rest else s
  end.

Fixpoint trimEnd (s : string) : string :=
  match s with
  | EmptyString => EmptyString
  | String c rest =>
      match trimEnd rest with
      | EmptyString => if is_white_space c then EmptyString else String c EmptyString
      | kept => String c kept
      end
  end.

Definition trim (s : string) : string := trimEnd (trimStart s).

(** Truthiness of a string: only the empty string is falsy. *)
Definition truthy (s : string) : bool :=
  match s with
  | EmptyString => false
  | String _ _ => true
  end.

(** The double-quote character, for string constants that contain it. *)
Definition dq : string := String (ascii_of_nat 34) EmptyString.

End Js.

(** ** Records exchanged with the backend *)

(** Modelled from the spec: the declarations of [@/types/recipeAdmin]
    ([Recipe], [RecipeStatistics], [RegenerationLog]) are not among the
    sources; the records below carry the properties the two components read,
    with the names the components use and the optionality their [?.], [??]
    and [||] guards presuppose. *)

Record Ingredient := {
  ing_name : option string;
  ing_ingredient : option string;
  ing_quantity : option string;
  ing_unit : option string
}.

Record Recipe := {
  id : Z;
  name : string;
  description : option string;
  region : option string;
  difficulty : option string;
  prep_time_minutes : option Js.number;
  cook_time_minutes : option Js.number;
  servings : option Js.number;
  calories : option Js.number;
  rating : option Js.number;
  ingredients : option (list Ingredient);
  steps : option (list string);
  steps_beginner : option (list string);
  steps_advanced : option (list string);
  image_url : option string;
  ingredients_image : option string;
  step_image_urls : option (list string);
  validation_status : option string;
  data_quality_score : option Js.number;
  is_complete : bool
}.

Record RecipeStatistics := {
  total_recipes : Z;
  missing_main_images : Z;
  missing_ingredients_images : Z;
  missing_steps_images : Z;
  missing_steps_beginner : Z
}.

(** The values an [editedFields] object (typed [any] in the source) holds:
    what the Edit button copies out of the selected recipe and what the form
    controls write. *)
Inductive JsValue :=
| JNullish                                  (* [null] or [undefined] *)
| JString (s : string)
| JNumber (x : Js.number)
| JStrings (l : list string)
| JIngredients (l : list Ingredient).

Definition of_string (o : option string) : JsValue :=
  match o with Some s => JString s | None => JNullish end.

Definition of_number (o : option Js.number) : JsValue :=
  match o with Some x => JNumber x | None => JNullish end.

(** [a ?? b] *)
Definition nullish_or (a : option JsValue) (b : JsValue) : JsValue :=
  match a with
  | None | Some JNullish => b
  | Some v => v
  end.

(** Truthiness of the values an image URL expression can take. *)
Definition truthy_value (v : JsValue) : bool :=
  match v with
  | JNullish => false
  | JString s => Js.truthy s
  | JNumber _ | JStrings _ | JIngredients _ => true
  end.

(** ** Sequencing the statements of a handler

    A statement is a function on the world it runs in; [a ;; b] runs [a],
    then [b]. *)

Definition andThen {W : Type} (a b : W -> W) : W -> W := fun w => b (a w).

Declare Scope action_scope.
Delimit Scope action_scope with act.
Notation "a ;; b" := (andThen a b)
  (at level 100, b at level 200, right associativity) : action_scope.

(** ** The data manager tab *)

Module DataManager.

Definition PAGE_SIZE : Z := 20.

(** The four [<option>]s of the status filter [<select>]. *)
Inductive FilterOption := AllStatus | Pending | Validated | NeedsFixing.

Definition option_value (o : FilterOption) : string :=
  match o with
  | AllStatus => ""
  | Pending => "pending"
  | Validated => "validated"
  | NeedsFixing => "needs_fixing"
  end.

(** The [useState] cells of [DataManagerTab], in declaration order. *)
Record State := {
  recipes : list Recipe;
  statistics : option RecipeStatistics;
  selectedRecipe : option Recipe;
  isEditing : bool;
  editedFields : gmap string JsValue;
  page : Z;
  loading : bool;
  filter : string;
  searchQuery : string;
  searchResults : list Recipe;
  isSearching : bool
}.

Definition initial : State := {|
  recipes := [];
  statistics := None;
  selectedRecipe := None;
  isEditing := false;
  editedFields := ∅;
  page := 0;
  loading := false;
  filter := "";
  searchQuery := "";
  searchResults := [];
  isSearching := false
|}.

(** *** Effects and pending requests

    Modelled from the spec: the functions of [@/services/recipeAdminAPI]
    ([listRecipes], [getStatistics], [searchRecipes], [updateRecipe]) are
    not among the sources.  A call is recorded with the arguments the
    component passes, which is all the component decides about the
    request; the promise it returns is settled by the environment. *)

Inductive Effect :=
| ListRecipes (skip limit : Z) (validation_status : option string)
| GetStatistics
| SearchRecipes (query : string)
| UpdateRecipe (recipe_id : Z) (body : gmap string JsValue)
| Alert (text : string)
| ConsoleLog (text : string)
| ConsoleError (text : string).

(** Where a suspended [async] function resumes.  [handleSave] closes over
    the [page] and [filter] of the render it was created in, and hands
    them to [loadRecipes] once the update has gone through. *)
Inductive Continuation :=
| AwaitListRecipes
| AwaitStatistics
| AwaitSearch
| AwaitUpdate (closure_page : Z) (closure_filter : string).

Inductive Payload :=
| RecipesPayload (found : list Recipe)
| StatisticsPayload (stats : RecipeStatistics)
| UpdatedPayload.

Inductive Settlement :=
| Fulfilled (p : Payload)
| Rejected (e : Js.Error).

Record World := {
  ui : State;
  awaiting : gmap nat Continuation;
  next_request : nat;
  effects : list Effect
}.

(** *** Actions: the statements of a handler *)

Definition Action : Type := World -> World.
Bind Scope action_scope with Action.

Definition skip : Action := fun w => w.

Definition update (f : State -> State) : Action := fun w =>
  {| ui := f (ui w); awaiting := awaiting w;
     next_request := next_request w; effects := effects w |}.

Definition perform (e : Effect) : Action := fun w =>
  {| ui := ui w; awaiting := awaiting w;
     next_request := next_request w; effects := effects w ++ [e] |}.

(** [await request]: issue the request and park the rest of the function. *)
Definition await (request : Effect) (k : Continuation) : Action := fun w =>
  {| ui := ui w; awaiting := <[next_request w := k]> (awaiting w);
     next_request := S (next_request w); effects := effects w ++ [request] |}.

Definition settle (rid : nat) : Action := fun w =>
  {| ui := ui w; awaiting := delete rid (awaiting w);
     next_request := next_request w; effects := effects w |}.

(** The state setters. *)
Definition setRecipes (v : list Recipe) : Action := update (fun s =>
  {| recipes := v; statistics := statistics s; selectedRecipe := selectedRecipe s;
     isEditing := isEditing s; editedFields := editedFields s; page := page s;
     loading := loading s; filter := filter s; searchQuery := searchQuery s;
     searchResults := searchResults s; isSearching := isSearching s |}).

Definition setStatistics (v : option RecipeStatistics) : Action := update (fun s =>
  {| recipes := recipes s; statistics := v; selectedRecipe := selectedRecipe s;
     isEditing := isEditing s; editedFields := editedFields s; page := page s;
     loading := loading s; filter := filter s; searchQuery := searchQuery s;
     searchResults := searchResults s; isSearching := isSearching s |}).

Definition setSelectedRecipe (v : option Recipe) : Action := update (fun s =>
  {| recipes := recipes s; statistics := statistics s; selectedRecipe := v;
     isEditing := isEditing s; editedFields := editedFields s; page := page s;
     loading := loading s; filter := filter s; searchQuery := searchQuery s;
     searchResults := searchResults s; isSearching := isSearching s |}).

Definition setIsEditing (v : bool) : Action := update (fun s =>
  {| recipes := recipes s; statistics := statistics s; selectedRecipe := selectedRecipe s;
     isEditing := v; editedFields := editedFields s; page := page s;
     loading := loading s; filter := filter s; searchQuery := searchQuery s;
     searchResults := searchResults s; isSearching := isSearching s |}).

Definition setEditedFields (v : gmap string JsValue) : Action := update (fun s =>
  {| recipes := recipes s; statistics := statistics s; selectedRecipe := selectedRecipe s;
     isEditing := isEditing s; editedFields := v; page := page s;
     loading := loading s; filter := filter s; searchQuery := searchQuery s;
     searchResults := searchResults s; isSearching := isSearching s |}).

Definition setPage (v : Z) : Action := update (fun s =>
  {| recipes := recipes s; statistics := statistics s; selectedRecipe := selectedRecipe s;
     isEditing := isEditing s; editedFields := editedFields s; page := v;
     loading := loading s; filter := filter s; searchQuery := searchQuery s;
     searchResults := searchResults s; isSearching := isSearching s |}).

Definition setLoading (v : bool) : Action := update (fun s =>
  {| recipes := recipes s; statistics := statistics s; selectedRecipe := selectedRecipe s;
     isEditing := isEditing s; editedFields := editedFields s; page := page s;
     loading := v; filter := filter s; searchQuery := searchQuery s;
     searchResults := searchResults s; isSearching := isSearching s |}).

Definition setFilter (v : string) : Action := update (fun s =>
  {| recipes := recipes s; statistics := statistics s; selectedRecipe := selectedRecipe s;
     isEditing := isEditing s; editedFields := editedFields s; page := page s;
     loading := loading s; filter := v; searchQuery := searchQuery s;
     searchResults := searchResults s; isSearching := isSearching s |}).

Definition setSearchQuery (v : string) : Action := update (fun s =>
  {| recipes := recipes s; statistics := statistics s; selectedRecipe := selectedRecipe s;
     isEditing := isEditing s; editedFields := editedFields s; page := page s;
     loading := loading s; filter := filter s; searchQuery := v;
     searchResults := searchResults s; isSearching := isSearching s |}).

Definition setSearchResults (v : list Recipe) : Action := update (fun s =>
  {| recipes := recipes s; statistics := statistics s; selectedRecipe := selectedRecipe s;
     isEditing := isEditing s; editedFields := editedFields s; page := page s;
     loading := loading s; filter := filter s; searchQuery := searchQuery s;
     searchResults := v; isSearching := isSearching s |}).

Definition setIsSearching (v : bool) : Action := update (fun s =>
  {| recipes := recipes s; statistics := statistics s; selectedRecipe := selectedRecipe s;
     isEditing := isEditing s; editedFields := editedFields s; page := page s;
     loading := loading s; filter := filter s; searchQuery := searchQuery s;
     searchResults := searchResults s; isSearching := v |}).

(** *** The asynchronous functions of the component *)

(** [loadRecipes], as created by a render whose [page] and [filter] are
    the arguments; it runs up to [await listRecipes(...)]. *)
Definition loadRecipes (p : Z) (f : string) : Action :=
  (setLoading true ;;
   perform (ConsoleLog "Loading recipes...") ;;
   await (ListRecipes (p * PAGE_SIZE) PAGE_SIZE (if Js.truthy f then Some f else None))
         AwaitListRecipes)%act.

Definition loadStatistics : Action :=
  await GetStatistics AwaitStatistics.

(** The body of [useEffect(..., [page, filter])]. *)
Definition useEffect : Action := fun w =>
  (loadRecipes (page (ui w)) (filter (ui w)) ;; loadStatistics)%act w.

Definition handleSearch (s : State) : Action :=
  if Js.truthy (Js.trim (searchQuery s))
  then (setLoading true ;;
        setIsSearching true ;;
        await (SearchRecipes (searchQuery s)) AwaitSearch)%act
  else (setSearchResults [] ;; setIsSearching false)%act.

Definition clearSearch : Action :=
  (setSearchQuery "" ;; setSearchResults [] ;; setIsSearching false)%act.

(** [Object.keys(editedFields).length] *)
Definition keys_length (o : gmap string JsValue) : nat := size o.

Definition handleSave (s : State) : Action :=
  match selectedRecipe s with
  | None => skip
  | Some r =>
      if (keys_length (editedFields s) =? 0)%nat then skip
      else await (UpdateRecipe (id r) (editedFields s))
                 (AwaitUpdate (page s) (filter s))
  end.

(** The rest of an [async] function after its [await], by outcome:
    the [try] body on fulfilment, the [catch] clause on rejection, then
    the [finally] clause.  [None]: the payload is not of the type the
    awaited call is declared to return. *)
Definition resume (k : Continuation) (r : Settlement) : option Action :=
  match k, r with
  | AwaitListRecipes, Fulfilled (RecipesPayload found) =>
      Some (perform (ConsoleLog "Recipes loaded:") ;;
            setRecipes found ;;
            setLoading false)%act
  | AwaitListRecipes, Rejected e =>
      Some (perform (ConsoleError "Failed to load recipes:") ;;
            perform (Alert ("Failed to load recipes: " ++ Js.message_or "Unknown error" e)) ;;
            setLoading false)%act
  | AwaitStatistics, Fulfilled (StatisticsPayload stats) =>
      Some (setStatistics (Some stats))
  | AwaitStatistics, Rejected e =>
      Some (perform (ConsoleError "Failed to load statistics:"))
  | AwaitSearch, Fulfilled (RecipesPayload found) =>
      Some (setSearchResults found ;; setLoading false)%act
  | AwaitSearch, Rejected e =>
      Some (perform (ConsoleError "Search failed:") ;;
            perform (Alert ("Search failed: " ++ Js.message_or "Unknown error" e)) ;;
            setLoading false)%act
  | AwaitUpdate p f, Fulfilled _ =>
      Some (perform (Alert "Recipe updated successfully!") ;;
            setIsEditing false ;;
            setEditedFields ∅ ;;
            loadRecipes p f)%act
  | AwaitUpdate p f, Rejected e =>
      Some (perform (Alert ("Failed to update: " ++ Js.message_or "Unknown error" e)))
  | _, _ => None
  end.

(** *** The form controls *)

Inductive TextField :=
| FName | FRegion | FDifficulty | FDescription | FImageUrl | FIngredientsImage.

Inductive NumberField :=
| FPrepTime | FCookTime | FServings | FCalories | FRating.

Definition text_key (f : TextField) : string :=
  match f with
  | FName => "name"
  | FRegion => "region"
  | FDifficulty => "difficulty"
  | FDescription => "description"
  | FImageUrl => "image_url"
  | FIngredientsImage => "ingredients_image"
  end.

Definition number_key (f : NumberField) : string :=
  match f with
  | FPrepTime => "prep_time_minutes"
  | FCookTime => "cook_time_minutes"
  | FServings => "servings"
  | FCalories => "calories"
  | FRating => "rating"
  end.

(** [selectedRecipe[key]] for the keys the editor touches. *)
Definition property (r : Recipe) (key : string) : option JsValue :=
  if String.eqb key "name" then Some (JString (name r))
  else if String.eqb key "description" then Some (of_string (description r))
  else if String.eqb key "region" then Some (of_string (region r))
  else if String.eqb key "difficulty" then Some (of_string (difficulty r))
  else if String.eqb key "prep_time_minutes" then Some (of_number (prep_time_minutes r))
  else if String.eqb key "cook_time_minutes" then Some (of_number (cook_time_minutes r))
  else if String.eqb key "servings" then Some (of_number (servings r))
  else if String.eqb key "calories" then Some (of_number (calories r))
  else if String.eqb key "rating" then Some (of_number (rating r))
  else if String.eqb key "image_url" then Some (of_string (image_url r))
  else if String.eqb key "ingredients_image" then Some (of_string (ingredients_image r))
  else if String.eqb key "ingredients"
    then Some (match ingredients r with Some l => JIngredients l | None => JNullish end)
  else if String.eqb key "step_image_urls"
    then Some (match step_image_urls r with Some l => JStrings l | None => JNullish end)
  else None.

(** The object literal the Edit button passes to [setEditedFields]. *)
Definition editSnapshot (r : Recipe) : gmap string JsValue :=
  <["rating" := of_number (rating r)]>
 (<["calories" := of_number (calories r)]>
 (<["servings" := of_number (servings r)]>
 (<["cook_time_minutes" := of_number (cook_time_minutes r)]>
 (<["prep_time_minutes" := of_number (prep_time_minutes r)]>
 (<["difficulty" := of_string (difficulty r)]>
 (<["region" := of_string (region r)]>
 (<["description" := of_string (description r)]>
 (<["name" := JString (name r)]> ∅)))))))).

(** [editedFields.ingredients ?? selectedRecipe.ingredients ?? []] *)
Definition currentIngredients (s : State) (r : Recipe) : list Ingredient :=
  match nullish_or (editedFields s !! "ingredients")
                   (nullish_or (property r "ingredients") (JIngredients [])) with
  | JIngredients l => l
  | _ => []
  end.

(** [editedFields.step_image_urls ?? selectedRecipe.step_image_urls ?? []] *)
Definition currentStepImageUrls (s : State) (r : Recipe) : list string :=
  match nullish_or (editedFields s !! "step_image_urls")
                   (nullish_or (property r "step_image_urls") (JStrings [])) with
  | JStrings l => l
  | _ => []
  end.

(** [editedFields[key] ?? selectedRecipe[key]] *)
Definition shownValue (s : State) (r : Recipe) (key : string) : JsValue :=
  nullish_or (editedFields s !! key) (default JNullish (property r key)).

Definition blankIngredient : Ingredient :=
  {| ing_name := Some ""; ing_ingredient := Some "";
     ing_quantity := Some ""; ing_unit := Some "" |}.

Definition renameIngredient (text : string) (i : Ingredient) : Ingredient :=
  {| ing_name := Some text; ing_ingredient := Some text;
     ing_quantity := ing_quantity i; ing_unit := ing_unit i |}.

Definition requantifyIngredient (text : string) (i : Ingredient) : Ingredient :=
  {| ing_name := ing_name i; ing_ingredient := ing_ingredient i;
     ing_quantity := Some text; ing_unit := ing_unit i |}.

(** *** What the render shows *)

(** [(isSearching ? searchResults : recipes)] *)
Definition displayed (s : State) : list Recipe :=
  if isSearching s then searchResults s else recipes s.

(** The pagination bar, rendered under [!isSearching]. *)
Record Pagination := {
  previous_disabled : bool;
  page_label : Z;
  next_disabled : bool
}.

Definition pagination (s : State) : option Pagination :=
  if isSearching s then None
  else Some {| previous_disabled := (page s =? 0);
               page_label := page s + 1;
               next_disabled := (Z.of_nat (length (recipes s)) <? PAGE_SIZE) |}.

(** The status filter [<select>], rendered under [!isSearching], with its
    current value. *)
Definition filterSelect (s : State) : option string :=
  if isSearching s then None else Some (filter s).

(** *** Events *)

Inductive Event :=
| TypeSearchQuery (text : string)
| PressEnter
| ClickSearch
| ClickClear
| SelectFilter (o : FilterOption)
| ClickRecipe (index : nat)
| ClickPrevious
| ClickNext
| ClickEdit
| ClickSave
| ClickCancel
| ChangeText (f : TextField) (text : string)
| ChangeNumber (f : NumberField) (parsed : Js.number)
| ClickRemoveImage (f : TextField)
| ClickAddIngredient
| ChangeIngredientName (index : nat) (text : string)
| ChangeIngredientQuantity (index : nat) (text : string)
| ClickDeleteIngredient (index : nat)
| ChangeStepImageUrl (index : nat) (text : string)
| ClickDeleteStepImageUrl (index : nat)
| ClickAddStepImageUrl
| Settle (rid : nat) (r : Settlement).

Definition editing (s : State) : option Recipe :=
  if isEditing s then selectedRecipe s else None.

(** Whether the render of [s] contains the control the gesture addresses,
    and the control is not [disabled]. *)
Definition available (s : State) (ev : Event) : bool :=
  match ev with
  | TypeSearchQuery _ | PressEnter => true
  | ClickSearch => Js.truthy (Js.trim (searchQuery s))
  | ClickClear => isSearching s
  | SelectFilter _ => bool_decide (is_Some (filterSelect s))
  | ClickRecipe i => negb (loading s) && bool_decide (is_Some (displayed s !! i))
  | ClickPrevious =>
      match pagination s with Some bar => negb (previous_disabled bar) | None => false end
  | ClickNext =>
      match pagination s with Some bar => negb (next_disabled bar) | None => false end
  | ClickEdit => bool_decide (is_Some (selectedRecipe s)) && negb (isEditing s)
  | ClickSave | ClickCancel => bool_decide (is_Some (editing s))
  | ChangeText _ _ | ChangeNumber _ _ | ClickAddIngredient | ClickAddStepImageUrl =>
      bool_decide (is_Some (editing s))
  | ClickRemoveImage f =>
      match editing s, f with
      | Some r, (FImageUrl | FIngredientsImage) => truthy_value (shownValue s r (text_key f))
      | _, _ => false
      end
  | ChangeIngredientName i _ | ChangeIngredientQuantity i _ | ClickDeleteIngredient i =>
      match editing s with
      | Some r => bool_decide (is_Some (currentIngredients s r !! i))
      | None => false
      end
  | ChangeStepImageUrl i _ | ClickDeleteStepImageUrl i =>
      match editing s with
      | Some r => bool_decide (is_Some (currentStepImageUrls s r !! i))
      | None => false
      end
  | Settle _ _ => true
  end.

(** [setEditedFields({ ...editedFields, [key]: v })] *)
Definition overlay (s : State) (key : string) (v : JsValue) : Action :=
  setEditedFields (<[key := v]> (editedFields s)).

(** The handler the render of [s] attached to the addressed control. *)
Definition handler (s : State) (ev : Event) : Action :=
  match ev with
  | TypeSearchQuery text => setSearchQuery text
  | PressEnter | ClickSearch => handleSearch s
  | ClickClear => clearSearch
  | SelectFilter o => (setFilter (option_value o) ;; setPage 0)%act
  | ClickRecipe i =>
      match displayed s !! i with
      | Some recipe => setSelectedRecipe (Some recipe)
      | None => skip
      end
  | ClickPrevious => setPage (Z.max 0 (page s - 1))
  | ClickNext => setPage (page s + 1)
  | ClickEdit =>
      match selectedRecipe s with
      | Some r => (setIsEditing true ;; setEditedFields (editSnapshot r))%act
      | None => skip
      end
  | ClickSave => handleSave s
  | ClickCancel => (setIsEditing false ;; setEditedFields ∅)%act
  | ChangeText f text => overlay s (text_key f) (JString text)
  | ChangeNumber f parsed => overlay s (number_key f) (JNumber parsed)
  | ClickRemoveImage f => overlay s (text_key f) (JString "")
  | ClickAddIngredient =>
      match selectedRecipe s with
      | Some r => overlay s "ingredients"
                    (JIngredients (currentIngredients s r ++ [blankIngredient]))
      | None => skip
      end
  | ChangeIngredientName i text =>
      match selectedRecipe s with
      | Some r => overlay s "ingredients"
                    (JIngredients (alter (renameIngredient text) i (currentIngredients s r)))
      | None => skip
      end
  | ChangeIngredientQuantity i text =>
      match selectedRecipe s with
      | Some r => overlay s "ingredients"
                    (JIngredients (alter (requantifyIngredient text) i (currentIngredients s r)))
      | None => skip
      end
  | ClickDeleteIngredient i =>
      match selectedRecipe s with
      | Some r => overlay s "ingredients" (JIngredients (delete i (currentIngredients s r)))
      | None => skip
      end
  | ChangeStepImageUrl i text =>
      match selectedRecipe s with
      | Some r => overlay s "step_image_urls"
                    (JStrings (<[i := text]> (currentStepImageUrls s r)))
      | None => skip
      end
  | ClickDeleteStepImageUrl i =>
      match selectedRecipe s with
      | Some r => overlay s "step_image_urls" (JStrings (delete i (currentStepImageUrls s r)))
      | None => skip
      end
  | ClickAddStepImageUrl =>
      match selectedRecipe s with
      | Some r => overlay s "step_image_urls" (JStrings (currentStepImageUrls s r ++ [""]))
      | None => skip
      end
  | Settle rid r => fun w =>
      match awaiting w !! rid with
      | Some k =>
          match resume k r with
          | Some rest => (settle rid ;; rest)%act w
          | None => w
          end
      | None => w
      end
  end.

(** One turn of the event loop: run the handler if the control is there,
    re-render, and run the effect when [page] or [filter] changed. *)
Definition dispatch (w : World) (ev : Event) : World :=
  if available (ui w) ev then handler (ui w) ev w else w.

Definition depsChanged (before after : State) : bool :=
  negb (bool_decide (page before = page after ∧ filter before = filter after)).

Definition step (w : World) (ev : Event) : World :=
  let w' := dispatch w ev in
  if depsChanged (ui w) (ui w') then useEffect w' else w'.

Definition run (w : World) (evs : list Event) : World := fold_left step evs w.

(** The component right after mounting: the first render and the first
    run of the effect. *)
Definition mounted : World :=
  useEffect {| ui := initial; awaiting := ∅; next_request := 0%nat; effects := [] |}.

(** The effects one event added to the log. *)
Definition added (w : World) (ev : Event) : list Effect :=
  drop (length (effects w)) (effects (step w ev)).

(** An update body that holds changed fields only: whatever key it has, the
    value under it is not the one the recipe has under that key. *)
Definition onlyChangedFields (r : Recipe) (body : gmap string JsValue) : Prop :=
  ∀ key v, body !! key = Some v → property r key ≠ Some v.

(** A list request for a page that exists: a non-negative multiple of the
    page size as offset, the page size as limit. *)
Definition wellPaged (e : Effect) : Prop :=
  match e with
  | ListRecipes skip limit _ => limit = PAGE_SIZE ∧ ∃ p, 0 <= p ∧ skip = p * PAGE_SIZE
  | _ => True
  end.

(** What every event preserves: the page index, and every copy of it a
    pending [handleSave] holds, is non-negative, and so was every page asked
    for so far. *)
Record pageInvariant (w : World) : Prop := {
  page_nonneg : 0 <= page (ui w);
  closures_nonneg :
    ∀ rid p f, awaiting w !! rid = Some (AwaitUpdate p f) → 0 <= p;
  requests_wellPaged : Forall wellPaged (effects w)
}.

(** The keys of the object literal the Edit button builds. *)
Definition basicKeys : gset string :=
  {[ "name"; "description"; "region"; "difficulty"; "prep_time_minutes";
     "cook_time_minutes"; "servings"; "calories"; "rating" ]}.

End DataManager.

(** ** The images of the recipe details panel *)

Module Images.

Import DataManager.

(** The [<img>] elements of the details panel, by where they stand: the
    previews next to the URL inputs (edit mode), the images shown in their
    place otherwise, and the thumbnails of the image-status section. *)
Inductive Slot :=
| PreviewMain
| ShownMain
| PreviewIngredients
| ShownIngredients
| PreviewStep (index : nat)
| ShownStep (index : nat)
| StatusMain
| StatusIngredients
| StatusStep (index : nat).

Record Img := { slot : Slot; src : string }.

Definition attr (key value : string) : string :=
  " " ++ key ++ "=" ++ Js.dq ++ value ++ Js.dq.

(** The inline SVG the [onError] handlers assign: a square of side [side]
    with [label] centred in it. *)
Definition svg (side : string) (fontSize : option string) (label : string) : string :=
  "data:image/svg+xml,<svg" ++ attr "xmlns" "http://www.w3.org/2000/svg"
    ++ attr "width" side ++ attr "height" side
    ++ "><text" ++ attr "x" "50%" ++ attr "y" "50%"
    ++ attr "text-anchor" "middle" ++ attr "dy" ".3em" ++ attr "fill" "%23666"
    ++ match fontSize with Some f => attr "font-size" f | None => "" end
    ++ ">" ++ label ++ "</text></svg>".

Definition placeholder (place : Slot) : string :=
  match place with
  | PreviewMain | PreviewIngredients => svg "100" None "Invalid URL"
  | ShownMain | ShownIngredients => svg "100" None "Error Loading"
  | PreviewStep _ => svg "50" (Some "10") "!"
  | ShownStep _ => svg "100" None "!"
  | StatusMain | StatusIngredients => svg "100" None "No Image"
  | StatusStep _ => svg "100" None "Error"
  end.

(** How a handler ends: it returns, or an exception leaves it. *)
Inductive Completion (A : Type) :=
| Returned (a : A)
| Thrown (e : Js.Error).
Arguments Returned {A} a.
Arguments Thrown {A} e.

(** [onError={(e) => { (e.target as HTMLImageElement).src = '...'; }}],
    as attached to the element in the given slot. *)
Definition onError (target : Img) : Completion Img :=
  Returned {| slot := slot target; src := placeholder (slot target) |}.

(** A URL expression that renders an image: a non-empty string. *)
Definition url (v : JsValue) : option string :=
  match v with
  | JString u => if Js.truthy u then Some u else None
  | _ => None
  end.

Definition one (place : Slot) (v : JsValue) : list Img :=
  match url v with
  | Some u => [{| slot := place; src := u |}]
  | None => []
  end.

(** The [<img>] elements the render of [s] contains, in document order. *)
Definition images (s : State) : list Img :=
  match selectedRecipe s with
  | None => []
  | Some r =>
      (if isEditing s
       then one PreviewMain (shownValue s r "image_url")
            ++ one PreviewIngredients (shownValue s r "ingredients_image")
            ++ mjoin (imap (fun i u => one (PreviewStep i) (JString u))
                           (currentStepImageUrls s r))
       else one ShownMain (of_string (image_url r))
            ++ one ShownIngredients (of_string (ingredients_image r))
            ++ imap (fun i u => {| slot := ShownStep i; src := u |})
                    (default [] (step_image_urls r)))
      ++ one StatusMain (of_string (image_url r))
      ++ one StatusIngredients (of_string (ingredients_image r))
      ++ imap (fun i u => {| slot := StatusStep i; src := u |})
              (take 6 (default [] (step_image_urls r)))
  end.

(** An inline image: a [data:] URL, which needs no request to load. *)
Definition inline (u : string) : bool := String.prefix "data:image/svg+xml," u.

(** The count [N] of the line "+N more images" under the status
    thumbnails, rendered under [step_image_urls.length > 6]. *)
Definition moreStepImages (r : Recipe) : option nat :=
  match step_image_urls r with
  | Some urls => if (6 <? length urls)%nat then Some (length urls - 6)%nat else None
  | None => None
  end.

(** The status thumbnails of the step images among the rendered images. *)
Definition isStatusStep (img : Img) : bool :=
  match slot img with StatusStep _ => true | _ => false end.

Definition isPreviewMain (img : Img) : bool :=
  match slot img with PreviewMain => true | _ => false end.

End Images.

(** ** The specific-generation tab *)

Module SpecificGeneration.

(** Modelled from the spec: a job as the jobs endpoint reports it (the
    component reads [id] and [status]) and a log line of
    [@/types/recipeAdmin] (the component reads [id], [log_level],
    [message] and [created_at]). *)
Record Job := {
  job_id : Z;
  status : string;
  job_created_at : string
}.

Record RegenerationLog := {
  log_id : Z;
  log_job : Z;
  log_level : string;
  log_message : string;
  created_at : string
}.

Inductive MessageType := success | error.

Record Message := { type : MessageType; text : string }.

(** The [useState] cells of [SpecificGenerationTab], in declaration order. *)
Record State := {
  searchQuery : string;
  searchResults : list Recipe;
  selectedRecipe : option Recipe;
  isSearching : bool;
  isGenerating : bool;
  logs : list RegenerationLog;
  message : option Message;
  fixMainImage : bool;
  fixIngredientsImage : bool;
  fixStepsImages : bool;
  fixStepsText : bool;
  fixIngredientsText : bool
}.

Definition initial : State := {|
  searchQuery := "";
  searchResults := [];
  selectedRecipe := None;
  isSearching := false;
  isGenerating := false;
  logs := [];
  message := None;
  fixMainImage := false;
  fixIngredientsImage := false;
  fixStepsImages := false;
  fixStepsText := false;
  fixIngredientsText := false
|}.

(** The argument of [startSpecificGeneration]. *)
Record GenerationRequest := {
  recipe_name : string;
  fix_main_image : bool;
  fix_ingredients_image : bool;
  fix_steps_images : bool;
  fix_steps_text : bool;
  fix_ingredients_text : bool
}.

Definition jobs_url : string := "http://localhost:8000/api/recipe-admin/jobs?limit=1".

(** *** Effects, timers and pending requests

    Modelled from the spec: [searchRecipes], [startSpecificGeneration] and
    [getJobLogs] of [@/services/recipeAdminAPI] are not among the sources;
    a call is recorded with its arguments and settled by the environment.
    [PollJobs] is the [fetch] of the jobs URL (sent with the operator's
    e-mail from local storage as [X-Admin-Email] header) followed by
    [r.json()].  [PollJobs] and [GetJobLogs] carry the id of the interval
    whose callback issued them; the id is not sent anywhere, it only lets
    a statement speak of the fetches of one run of [handleGenerate]. *)
Inductive Effect :=
| SearchRecipes (query : string)
| StartSpecificGeneration (request : GenerationRequest)
| PollJobs (interval : nat) (url : string)
| GetJobLogs (interval : nat) (job : Z) (limit : Z)
| SetInterval (interval : nat) (delay : Z)
| ClearInterval (interval : nat)
| ConsoleError (label : string).

Inductive Continuation :=
| AwaitSearch
| AwaitStart
| AwaitJobs (interval : nat)
| AwaitLogs (interval : nat) (latestJob : Job).

Inductive Payload :=
| RecipesPayload (found : list Recipe)
| StartedPayload
| JobsPayload (jobs : option (list Job))
| LogsPayload (fetched : list RegenerationLog).

Inductive Settlement :=
| Fulfilled (p : Payload)
| Rejected (e : Js.Error).

(** [timers] maps the id of every interval that is set and not yet
    cleared to its delay in milliseconds: the browser fires such an
    interval once per delay, for as long as it is in the map. *)
Record World := {
  ui : State;
  timers : gmap nat Z;
  next_timer : nat;
  awaiting : gmap nat Continuation;
  next_request : nat;
  effects : list Effect
}.

Definition Action : Type := World -> World.
Bind Scope action_scope with Action.

Definition skip : Action := fun w => w.

Definition update (f : State -> State) : Action := fun w =>
  {| ui := f (ui w); timers := timers w; next_timer := next_timer w;
     awaiting := awaiting w; next_request := next_request w; effects := effects w |}.

Definition perform (e : Effect) : Action := fun w =>
  {| ui := ui w; timers := timers w; next_timer := next_timer w;
     awaiting := awaiting w; next_request := next_request w;
     effects := effects w ++ [e] |}.

Definition await (request : Effect) (k : Continuation) : Action := fun w =>
  {| ui := ui w; timers := timers w; next_timer := next_timer w;
     awaiting := <[next_request w := k]> (awaiting w);
     next_request := S (next_request w);
     effects := effects w ++ [request] |}.

Definition settle (rid : nat) : Action := fun w =>
  {| ui := ui w; timers := timers w; next_timer := next_timer w;
     awaiting := delete rid (awaiting w); next_request := next_request w;
     effects := effects w |}.

(** [setInterval(callback, delay)]: the handle is a fresh id. *)
Definition setInterval (delay : Z) : Action := fun w =>
  {| ui := ui w; timers := <[next_timer w := delay]> (timers w);
     next_timer := S (next_timer w);
     awaiting := awaiting w; next_request := next_request w;
     effects := effects w ++ [SetInterval (next_timer w) delay] |}.

Definition clearInterval (interval : nat) : Action := fun w =>
  {| ui := ui w; timers := delete interval (timers w); next_timer := next_timer w;
     awaiting := awaiting w; next_request := next_request w;
     effects := effects w ++ [ClearInterval interval] |}.

Definition setSearchQuery (v : string) : Action := update (fun s =>
  {| searchQuery := v; searchResults := searchResults s;
     selectedRecipe := selectedRecipe s; isSearching := isSearching s;
     isGenerating := isGenerating s; logs := logs s; message := message s;
     fixMainImage := fixMainImage s; fixIngredientsImage := fixIngredientsImage s;
     fixStepsImages := fixStepsImages s; fixStepsText := fixStepsText s;
     fixIngredientsText := fixIngredientsText s |}).

Definition setSearchResults (v : list Recipe) : Action := update (fun s =>
  {| searchQuery := searchQuery s; searchResults := v;
     selectedRecipe := selectedRecipe s; isSearching := isSearching s;
     isGenerating := isGenerating s; logs := logs s; message := message s;
     fixMainImage := fixMainImage s; fixIngredientsImage := fixIngredientsImage s;
     fixStepsImages := fixStepsImages s; fixStepsText := fixStepsText s;
     fixIngredientsText := fixIngredientsText s |}).

Definition setSelectedRecipe (v : option Recipe) : Action := update (fun s =>
  {| searchQuery := searchQuery s; searchResults := searchResults s;
     selectedRecipe := v; isSearching := isSearching s;
     isGenerating := isGenerating s; logs := logs s; message := message s;
     fixMainImage := fixMainImage s; fixIngredientsImage := fixIngredientsImage s;
     fixStepsImages := fixStepsImages s; fixStepsText := fixStepsText s;
     fixIngredientsText := fixIngredientsText s |}).

Definition setIsSearching (v : bool) : Action := update (fun s =>
  {| searchQuery := searchQuery s; searchResults := searchResults s;
     selectedRecipe := selectedRecipe s; isSearching := v;
     isGenerating := isGenerating s; logs := logs s; message := message s;
     fixMainImage := fixMainImage s; fixIngredientsImage := fixIngredientsImage s;
     fixStepsImages := fixStepsImages s; fixStepsText := fixStepsText s;
     fixIngredientsText := fixIngredientsText s |}).

Definition setIsGenerating (v : bool) : Action := update (fun s =>
  {| searchQuery := searchQuery s; searchResults := searchResults s;
     selectedRecipe := selectedRecipe s; isSearching := isSearching s;
     isGenerating := v; logs := logs s; message := message s;
     fixMainImage := fixMainImage s; fixIngredientsImage := fixIngredientsImage s;
     fixStepsImages := fixStepsImages s; fixStepsText := fixStepsText s;
     fixIngredientsText := fixIngredientsText s |}).

Definition setLogs (v : list RegenerationLog) : Action := update (fun s =>
  {| searchQuery := searchQuery s; searchResults := searchResults s;
     selectedRecipe := selectedRecipe s; isSearching := isSearching s;
     isGenerating := isGenerating s; logs := v; message := message s;
     fixMainImage := fixMainImage s; fixIngredientsImage := fixIngredientsImage s;
     fixStepsImages := fixStepsImages s; fixStepsText := fixStepsText s;
     fixIngredientsText := fixIngredientsText s |}).

Definition setMessage (v : option Message) : Action := update (fun s =>
  {| searchQuery := searchQuery s; searchResults := searchResults s;
     selectedRecipe := selectedRecipe s; isSearching := isSearching s;
     isGenerating := isGenerating s; logs := logs s; message := v;
     fixMainImage := fixMainImage s; fixIngredientsImage := fixIngredientsImage s;
     fixStepsImages := fixStepsImages s; fixStepsText := fixStepsText s;
     fixIngredientsText := fixIngredientsText s |}).

Inductive FixOption :=
| MainImage | IngredientsImage | StepsImages | StepsText | IngredientsText.

(** The [setter] of an entry of the option list. *)
Definition setFix (o : FixOption) (v : bool) : Action := update (fun s =>
  {| searchQuery := searchQuery s; searchResults := searchResults s;
     selectedRecipe := selectedRecipe s; isSearching := isSearching s;
     isGenerating := isGenerating s; logs := logs s; message := message s;
     fixMainImage := match o with MainImage => v | _ => fixMainImage s end;
     fixIngredientsImage :=
       match o with IngredientsImage => v | _ => fixIngredientsImage s end;
     fixStepsImages := match o with StepsImages => v | _ => fixStepsImages s end;
     fixStepsText := match o with StepsText => v | _ => fixStepsText s end;
     fixIngredientsText :=
       match o with IngredientsText => v | _ => fixIngredientsText s end |}).

(** *** The handlers *)

Definition handleSearch (s : State) : Action :=
  if Js.truthy (Js.trim (searchQuery s))
  then (setIsSearching true ;;
        await (SearchRecipes (searchQuery s)) AwaitSearch)%act
  else skip.

Definition generationRequest (s : State) (r : Recipe) : GenerationRequest :=
  {| recipe_name := name r;
     fix_main_image := fixMainImage s;
     fix_ingredients_image := fixIngredientsImage s;
     fix_steps_images := fixStepsImages s;
     fix_steps_text := fixStepsText s;
     fix_ingredients_text := fixIngredientsText s |}.

(** [handleGenerate] up to [await startSpecificGeneration(...)]. *)
Definition handleGenerate (s : State) : Action :=
  match selectedRecipe s with
  | None => skip
  | Some r =>
      (setIsGenerating true ;;
       setLogs [] ;;
       setMessage None ;;
       await (StartSpecificGeneration (generationRequest s r)) AwaitStart)%act
  end.

(** [['completed', 'failed', 'cancelled'].includes(status)] *)
Definition terminal (status : string) : bool :=
  bool_decide (status ∈ ["completed"; "failed"; "cancelled"]).

Definition outcomeMessage (status : string) : Message :=
  {| type := if String.eqb status "completed" then success else error;
     text := if String.eqb status "completed"
             then "Recipe updated successfully!"
             else "Generation failed. Check logs for details." |}.

(** The interval callback up to its first [await]. *)
Definition poll (interval : nat) : Action :=
  await (PollJobs interval jobs_url) (AwaitJobs interval).

Definition resume (k : Continuation) (r : Settlement) : option Action :=
  match k, r with
  | AwaitSearch, Fulfilled (RecipesPayload found) =>
      Some (setSearchResults found ;;
            (if (length found =? 0)%nat
             then setMessage (Some {| type := error;
                                      text := "No recipes found matching your search" |})
             else skip) ;;
            setIsSearching false)%act
  | AwaitSearch, Rejected e =>
      Some (setMessage (Some {| type := error; text := Js.message_or "Search failed" e |}) ;;
            setIsSearching false)%act
  | AwaitStart, Fulfilled _ =>
      Some (setInterval 2000)
  | AwaitStart, Rejected e =>
      Some (setMessage (Some {| type := error;
                                text := Js.message_or "Generation failed" e |}) ;;
            setIsGenerating false)%act
  | AwaitJobs interval, Fulfilled (JobsPayload (Some (latestJob :: _))) =>
      Some (await (GetJobLogs interval (job_id latestJob) 20) (AwaitLogs interval latestJob))
  | AwaitJobs interval, Fulfilled (JobsPayload _) =>
      Some skip
  | AwaitJobs interval, Rejected e =>
      Some (perform (ConsoleError "Polling error:"))
  | AwaitLogs interval latestJob, Fulfilled (LogsPayload fetched) =>
      Some (setLogs fetched ;;
            if terminal (status latestJob)
            then (clearInterval interval ;;
                  setIsGenerating false ;;
                  setMessage (Some (outcomeMessage (status latestJob))))%act
            else skip)%act
  | AwaitLogs interval latestJob, Rejected e =>
      Some (perform (ConsoleError "Polling error:"))
  | _, _ => None
  end.

(** *** What the render shows *)

Definition atLeastOneOptionSelected (s : State) : bool :=
  fixMainImage s || fixIngredientsImage s || fixStepsImages s
  || fixStepsText s || fixIngredientsText s.

(** The Start Generation button, rendered under [selectedRecipe &&], with
    its [disabled] attribute. *)
Definition startButton (s : State) : option bool :=
  match selectedRecipe s with
  | Some _ => Some (isGenerating s || negb (atLeastOneOptionSelected s))
  | None => None
  end.

(** The message banner and the log panel sit in the same
    [selectedRecipe &&] block as the options. *)
Definition banner (s : State) : option Message :=
  match selectedRecipe s with
  | Some _ => message s
  | None => None
  end.

Definition logPanel (s : State) : list RegenerationLog :=
  match selectedRecipe s with
  | Some _ => logs s
  | None => []
  end.

(** *** Events *)

Inductive Event :=
| TypeSearchQuery (text : string)
| PressEnter
| ClickSearch
| ClickResult (index : nat)
| ToggleFix (o : FixOption) (checked : bool)
| ClickStart
| Tick (interval : nat)
| Settle (rid : nat) (r : Settlement).

Definition available (w : World) (ev : Event) : bool :=
  let s := ui w in
  match ev with
  | TypeSearchQuery _ | PressEnter => negb (isSearching s)
  | ClickSearch => negb (isSearching s || negb (Js.truthy (Js.trim (searchQuery s))))
  | ClickResult i => bool_decide (is_Some (searchResults s !! i))
  | ToggleFix _ _ => bool_decide (is_Some (selectedRecipe s)) && negb (isGenerating s)
  | ClickStart =>
      match startButton s with Some disabled => negb disabled | None => false end
  | Tick interval => bool_decide (is_Some (timers w !! interval))
  | Settle _ _ => true
  end.

Definition handler (s : State) (ev : Event) : Action :=
  match ev with
  | TypeSearchQuery text => setSearchQuery text
  | PressEnter | ClickSearch => handleSearch s
  | ClickResult i =>
      match searchResults s !! i with
      | Some recipe => setSelectedRecipe (Some recipe)
      | None => skip
      end
  | ToggleFix o checked => setFix o checked
  | ClickStart => handleGenerate s
  | Tick interval => poll interval
  | Settle rid r => fun w =>
      match awaiting w !! rid with
      | Some k =>
          match resume k r with
          | Some rest => (settle rid ;; rest)%act w
          | None => w
          end
      | None => w
      end
  end.

Definition step (w : World) (ev : Event) : World :=
  if available w ev then handler (ui w) ev w else w.

Definition run (w : World) (evs : list Event) : World := fold_left step evs w.

Definition mounted : World :=
  {| ui := initial; timers := ∅; next_timer := 0%nat;
     awaiting := ∅; next_request := 0%nat; effects := [] |}.

Definition added (w : World) (ev : Event) : list Effect :=
  drop (length (effects w)) (effects (step w ev)).

(** The fetches the poll of one interval has issued so far. *)
Definition fetchOf (interval : nat) (e : Effect) : bool :=
  match e with
  | PollJobs i _ | GetJobLogs i _ _ => bool_decide (i = interval)
  | _ => false
  end.

Definition jobFetchOf (interval : nat) (e : Effect) : bool :=
  match e with
  | PollJobs i _ => bool_decide (i = interval)
  | _ => false
  end.

Definition fetches (interval : nat) (w : World) : list Effect :=
  List.filter (fetchOf interval) (effects w).

Definition jobFetches (interval : nat) (w : World) : list Effect :=
  List.filter (jobFetchOf interval) (effects w).

(** A poll cycle of the interval is between its [await]s. *)
Definition cycleOf (interval : nat) (k : Continuation) : bool :=
  match k with
  | AwaitJobs i | AwaitLogs i _ => bool_decide (i = interval)
  | AwaitSearch | AwaitStart => false
  end.

Definition inFlight (interval : nat) (w : World) : Prop :=
  ∃ rid k, awaiting w !! rid = Some k ∧ cycleOf interval k = true.

(** What every event preserves: every interval that is set has the delay
    of 2000 ms and a handle already given out, and so has every interval a
    poll cycle in flight belongs to. *)
Record timerInvariant (w : World) : Prop := {
  timers_known : ∀ i d, timers w !! i = Some d → d = 2000 ∧ (i < next_timer w)%nat;
  cycles_known :
    ∀ rid k i, awaiting w !! rid = Some k → cycleOf i k = true → (i < next_timer w)%nat
}.

(** The interval is cleared for good, and nothing [guard] marks is
    pending; [base] is what the log holds of the effects [watch] marks. *)
Record stopped (guard : Continuation -> bool) (watch : Effect -> bool)
    (i : nat) (base : list Effect) (w : World) : Prop := {
  timer_gone : timers w !! i = None;
  handle_used : (i < next_timer w)%nat;
  none_pending : ∀ rid k, awaiting w !! rid = Some k → guard k = false;
  log_same : List.filter watch (effects w) = base
}.

End SpecificGeneration.


(** ** Invariants of the recipe editor and of the generation search *)

Module Editor.

Import DataManager.

(** The gestures on the controls of the edit form. *)
Definition isFormEdit (ev : Event) : bool :=
  match ev with
  | ChangeText _ _ | ChangeNumber _ _ | ClickRemoveImage _
  | ClickAddIngredient | ChangeIngredientName _ _ | ChangeIngredientQuantity _ _
  | ClickDeleteIngredient _
  | ChangeStepImageUrl _ _ | ClickDeleteStepImageUrl _ | ClickAddStepImageUrl => true
  | _ => false
  end.

(** How the editing flag, the overlay and the selection go together. *)
Record consistent (s : State) : Prop := {
  idle_empty : isEditing s = false → editedFields s = ∅;
  editing_selected : isEditing s = true → is_Some (selectedRecipe s);
  editing_filled : isEditing s = true → basicKeys ⊆ dom (editedFields s)
}.

(** The requests that put the list in its loading state. *)
Definition isListing (e : Effect) : bool :=
  match e with
  | ListRecipes _ _ _ | SearchRecipes _ => true
  | _ => false
  end.

(** The requests the effect on [page] and [filter] issues. *)
Definition isReload (e : Effect) : bool :=
  match e with
  | ListRecipes _ _ _ | GetStatistics => true
  | _ => false
  end.

End Editor.

Module GenerationSearch.

Import SpecificGeneration.

(** No search is pending, and request ids are given out in order. *)
Record noSearch (w : World) : Prop := {
  none_searching : ∀ rid, awaiting w !! rid ≠ Some AwaitSearch;
  ids_below : ∀ rid k, awaiting w !! rid = Some k → (rid < next_request w)%nat
}.

(** At most one search of the generation tab is in flight, and one is
    exactly while [isSearching] is set. *)
Record singleSearch (w : World) : Prop := {
  idle_none : isSearching (ui w) = false → ∀ rid, awaiting w !! rid ≠ Some AwaitSearch;
  busy_one : ∀ rid rid', awaiting w !! rid = Some AwaitSearch →
                         awaiting w !! rid' = Some AwaitSearch → rid = rid';
  busy_some : isSearching (ui w) = true → ∃ rid, awaiting w !! rid = Some AwaitSearch;
  ids_fresh : ∀ rid k, awaiting w !! rid = Some k → (rid < next_request w)%nat
}.

(** The five option flags, in the order of the option list. *)
Definition flags (s : State) : list bool :=
  [fixMainImage s; fixIngredientsImage s; fixStepsImages s; fixStepsText s;
   fixIngredientsText s].

End GenerationSearch.

(** ** The preferences page *)

Module PreferencesPage.

Inductive Step := preferences | chat.

(** The [useState] cells of [PreferencesPage]. *)
Record State := {
  step : Step;
  sessionId : string;
  recommendations : string
}.

Definition initial : State :=
  {| step := preferences; sessionId := ""; recommendations := "" |}.

Definition handlePreferencesSubmit (newSessionId newRecommendations : string)
    (s : State) : State :=
  {| step := chat; sessionId := newSessionId; recommendations := newRecommendations |}.

Definition handleBackToPreferences (s : State) : State :=
  {| step := preferences; sessionId := ""; recommendations := "" |}.

(** The children of [<main>]: the preferences form, or the chat with its
    two props. *)
Inductive Child :=
| PreferencesForm
| ChatInterface (sessionId initialRecommendations : string).

(** [{step === "preferences" && ...}] followed by
    [{step === "chat" && sessionId && ...}]. *)
Definition main (s : State) : list Child :=
  (match step s with preferences => [PreferencesForm] | chat => [] end)
  ++ (match step s with
      | chat => if Js.truthy (sessionId s)
                then [ChatInterface (sessionId s) (recommendations s)]
                else []
      | preferences => []
      end).

End PreferencesPage.

(** ** The navigation bar *)

Module CinematicNav.

(** The three values of next-auth's [SessionStatus]. *)
Inductive SessionStatus := authenticated | loading | unauthenticated.

Definition authLabel (status : SessionStatus) : string :=
  match status with
  | authenticated => "Dashboard"
  | _ => "Sign in"
  end.

Record NavLink := { href : string; label : string }.

(** The links of the bar in document order: the brand (labelled here by
    its name line), the four section links, the account link and the
    call-to-action button, each with its [href] and its text. *)
Definition links (status : SessionStatus) : list NavLink :=
  [ {| href := "/"; label := "Foodiee" |};
    {| href := "/preferences"; label := "Preferences" |};
    {| href := "/chat"; label := "Chat" |};
    {| href := "/history"; label := "History" |};
    {| href := "/top-recipes"; label := "Top Recipes" |};
    {| href := "/auth/sign-in"; label := authLabel status |};
    {| href := "/preferences"; label := "Cook with AI Magic" |} ].

End CinematicNav.

(** ** Concrete recipes, jobs and sessions used in the examples below *)

Module Samples.

Definition dal : Recipe := {|
  id := 7;
  name := "Dal Tadka";
  description := Some "Yellow lentils with tempered spices";
  region := Some "North Indian";
  difficulty := Some "Easy";
  prep_time_minutes := Some 10%float;
  cook_time_minutes := Some 25%float;
  servings := Some 4%float;
  calories := Some 180%float;
  rating := Some 4.5%float;
  ingredients := Some [{| ing_name := Some "toor dal"; ing_ingredient := None;
                          ing_quantity := Some "1 cup"; ing_unit := None |}];
  steps := Some ["Boil the dal"; "Temper the spices"];
  steps_beginner := None;
  steps_advanced := None;
  image_url := Some "https://img.example/dal.jpg";
  ingredients_image := None;
  step_image_urls := Some ["https://img.example/dal-1.jpg"; ""];
  validation_status := Some "pending";
  data_quality_score := Some 60%float;
  is_complete := false
|}.

Definition serverDown : Js.Error := Js.ErrorObject "HTTP 500".

(** A full page: twenty recipes. *)
Definition fullPage : list Recipe := replicate 20 dal.

(** The data manager after its first page arrived and the operator picked
    the first recipe and pressed Edit. *)
Definition editingDal : DataManager.World :=
  DataManager.run DataManager.mounted
    [DataManager.Settle 0 (DataManager.Fulfilled (DataManager.RecipesPayload [dal]));
     DataManager.ClickRecipe 0;
     DataManager.ClickEdit].

(** ... and then retyped the name, nothing else. *)
Definition renamedDal : DataManager.World :=
  DataManager.step editingDal (DataManager.ChangeText DataManager.FName "Dal Fry").

(** ... and then pressed Save: request 2 is the pending update. *)
Definition savingDal : DataManager.World :=
  DataManager.step renamedDal DataManager.ClickSave.

(** The data manager on its second page of pending recipes. *)
Definition secondPendingPage : DataManager.World :=
  DataManager.run DataManager.mounted
    [DataManager.SelectFilter DataManager.Pending;
     DataManager.Settle 2 (DataManager.Fulfilled (DataManager.RecipesPayload fullPage));
     DataManager.ClickNext;
     DataManager.Settle 4 (DataManager.Fulfilled (DataManager.RecipesPayload [dal]))].

(** A selected recipe with an empty overlay, as [handleSave] guards against. *)
Definition nothingEdited : DataManager.World :=
  {| DataManager.ui :=
       {| DataManager.recipes := [dal];
          DataManager.statistics := None;
          DataManager.selectedRecipe := Some dal;
          DataManager.isEditing := true;
          DataManager.editedFields := ∅;
          DataManager.page := 0;
          DataManager.loading := false;
          DataManager.filter := "";
          DataManager.searchQuery := "";
          DataManager.searchResults := [];
          DataManager.isSearching := false |};
     DataManager.awaiting := ∅;
     DataManager.next_request := 2%nat;
     DataManager.effects := DataManager.effects DataManager.mounted |}.

(** ... where the operator has typed "dal" into the search box. *)
Definition searchingDal : DataManager.World :=
  DataManager.step secondPendingPage (DataManager.TypeSearchQuery "dal").

Definition runningJob : SpecificGeneration.Job :=
  {| SpecificGeneration.job_id := 41;
     SpecificGeneration.status := "running";
     SpecificGeneration.job_created_at := "2025-01-01T10:00:00Z" |}.

Definition completedJob : SpecificGeneration.Job :=
  {| SpecificGeneration.job_id := 41;
     SpecificGeneration.status := "completed";
     SpecificGeneration.job_created_at := "2025-01-01T10:00:00Z" |}.

Definition firstLog : SpecificGeneration.RegenerationLog :=
  {| SpecificGeneration.log_id := 1;
     SpecificGeneration.log_job := 41;
     SpecificGeneration.log_level := "INFO";
     SpecificGeneration.log_message := "Generating main image";
     SpecificGeneration.created_at := "2025-01-01T10:00:01Z" |}.

Definition secondLog : SpecificGeneration.RegenerationLog :=
  {| SpecificGeneration.log_id := 2;
     SpecificGeneration.log_job := 41;
     SpecificGeneration.log_level := "SUCCESS";
     SpecificGeneration.log_message := "Main image stored";
     SpecificGeneration.created_at := "2025-01-01T10:00:03Z" |}.

(** The generation tab after the operator searched, picked the recipe and
    ticked "Main Image". *)
Definition readyToGenerate : SpecificGeneration.World :=
  SpecificGeneration.run SpecificGeneration.mounted
    [SpecificGeneration.TypeSearchQuery "dal";
     SpecificGeneration.ClickSearch;
     SpecificGeneration.Settle 0
       (SpecificGeneration.Fulfilled (SpecificGeneration.RecipesPayload [dal]));
     SpecificGeneration.ClickResult 0;
     SpecificGeneration.ToggleFix SpecificGeneration.MainImage true].

(** ... pressed Start Generation: request 1 is the pending start call. *)
Definition starting : SpecificGeneration.World :=
  SpecificGeneration.step readyToGenerate SpecificGeneration.ClickStart.

(** ... and the backend accepted the job: interval 0 is set. *)
Definition polling : SpecificGeneration.World :=
  SpecificGeneration.step starting
    (SpecificGeneration.Settle 1 (SpecificGeneration.Fulfilled SpecificGeneration.StartedPayload)).

(** The first tick fetched a job: request 3 is the pending logs call. *)
Definition awaitingLogsOf (job : SpecificGeneration.Job) : SpecificGeneration.World :=
  SpecificGeneration.run polling
    [SpecificGeneration.Tick 0;
     SpecificGeneration.Settle 2
       (SpecificGeneration.Fulfilled (SpecificGeneration.JobsPayload (Some [job])))].

(** A second recipe, and the data manager with both in its list, the first
    being edited under a new name. *)
Definition rasam : Recipe := {|
  id := 8;
  name := "Rasam";
  description := None;
  region := Some "South Indian";
  difficulty := Some "Medium";
  prep_time_minutes := Some 5%float;
  cook_time_minutes := Some 20%float;
  servings := Some 2%float;
  calories := None;
  rating := None;
  ingredients := None;
  steps := None;
  steps_beginner := None;
  steps_advanced := None;
  image_url := None;
  ingredients_image := Some "https://img.example/rasam-ingredients.jpg";
  step_image_urls :=
    Some ["https://img.example/r1.jpg"; "https://img.example/r2.jpg";
          "https://img.example/r3.jpg"; "https://img.example/r4.jpg";
          "https://img.example/r5.jpg"; "https://img.example/r6.jpg";
          "https://img.example/r7.jpg"; "https://img.example/r8.jpg"];
  validation_status := None;
  data_quality_score := None;
  is_complete := false
|}.

Definition renamedAmongTwo : DataManager.World :=
  DataManager.run DataManager.mounted
    [DataManager.Settle 0 (DataManager.Fulfilled (DataManager.RecipesPayload [dal; rasam]));
     DataManager.ClickRecipe 0;
     DataManager.ClickEdit;
     DataManager.ChangeText DataManager.FName "Dal Fry"].

(** The same session as a list of events from the mount, with a completed
    job fetched by the first tick. *)
Definition untilLogsOfCompletedJob : list SpecificGeneration.Event :=
  [SpecificGeneration.TypeSearchQuery "dal";
   SpecificGeneration.ClickSearch;
   SpecificGeneration.Settle 0
     (SpecificGeneration.Fulfilled (SpecificGeneration.RecipesPayload [dal]));
   SpecificGeneration.ClickResult 0;
   SpecificGeneration.ToggleFix SpecificGeneration.MainImage true;
   SpecificGeneration.ClickStart;
   SpecificGeneration.Settle 1 (SpecificGeneration.Fulfilled SpecificGeneration.StartedPayload);
   SpecificGeneration.Tick 0;
   SpecificGeneration.Settle 2
     (SpecificGeneration.Fulfilled (SpecificGeneration.JobsPayload (Some [completedJob])))].

End Samples.


(** * Properties of the data manager tab *)

Module DataManagerProperties.

Import DataManager.
Local Open Scope list_scope.

(** ** The effect log only grows, one handler at a time *)

Lemma added_app (w : World) (ev : Event) (new : list Effect) :
  effects (step w ev) = effects w ++ new -> added w ev = new.
Proof.
  intros E. unfold added. rewrite E. apply drop_app_length.
Qed.

Lemma deps_unchanged (s : State) : depsChanged s s = false.
Proof.
  unfold depsChanged. rewrite bool_decide_eq_true_2; [reflexivity | split; reflexivity].
Qed.

Lemma deps_same (before after : State) :
  page before = page after -> filter before = filter after ->
  depsChanged before after = false.
Proof.
  intros P F. unfold depsChanged. now rewrite bool_decide_eq_true_2.
Qed.

(** The effect does not run after a handler that leaves [page] and [filter]
    alone. *)
Ltac effect_idle :=
  match goal with
  | |- context [depsChanged ?a ?b] =>
      rewrite (deps_same a b) by reflexivity
  end.

Lemma step_unavailable (w : World) (ev : Event) :
  available (ui w) ev = false -> step w ev = w.
Proof.
  intros E. unfold step, dispatch. rewrite E. cbn zeta.
  now rewrite deps_unchanged.
Qed.

Lemma keys_length_zero (o : gmap string JsValue) :
  (keys_length o =? 0)%nat = true <-> o = ∅.
Proof.
  unfold keys_length. rewrite Nat.eqb_eq. apply map_size_empty_iff.
Qed.

(** ** Saving *)



Lemma editing_Some (s : State) (r : Recipe) :
  editing s = Some r <-> isEditing s = true /\ selectedRecipe s = Some r.
Proof.
  unfold editing. destruct (isEditing s); split; intros H;
    try discriminate; try (now split); now destruct H.
Qed.

Lemma save_issues_update (w : World) (r : Recipe) :
  editing (ui w) = Some r -> editedFields (ui w) ≠ ∅ ->
  step w ClickSave
  = await (UpdateRecipe (id r) (editedFields (ui w)))
          (AwaitUpdate (page (ui w)) (filter (ui w))) w.
Proof.
  intros E NE.
  assert (A : available (ui w) ClickSave = true).
  { cbn [available]. rewrite E. now apply bool_decide_eq_true_2. }
  apply editing_Some in E as [_ Sel].
  unfold step, dispatch. rewrite A. cbn [handler]. unfold handleSave. rewrite Sel.
  destruct (keys_length (editedFields (ui w)) =? 0)%nat eqn:K.
  - apply keys_length_zero in K. contradiction.
  - cbv zeta. now effect_idle.
Qed.

Lemma settle_update_fulfilled (w : World) (rid : nat) (p : Z) (f : string) (payload : Payload) :
  awaiting w !! rid = Some (AwaitUpdate p f) ->
  step w (Settle rid (Fulfilled payload))
  = (settle rid ;; perform (Alert "Recipe updated successfully!") ;;
     setIsEditing false ;; setEditedFields ∅ ;; loadRecipes p f)%act w.
Proof.
  intros A. unfold step, dispatch. cbn [available handler]. rewrite A. cbn [resume].
  cbv zeta. now effect_idle.
Qed.

(** C1, as the component has it.  The Edit button fills the overlay with
    the nine basic fields of the selected recipe.  A click on Save, with a
    recipe being edited and a non-empty overlay, issues one request: an
    update of that recipe whose body is the overlay as it stands, whether
    or not its values differ from the recipe's; no state cell changes.
    When that request is fulfilled the component alerts, leaves edit mode,
    empties the overlay and asks the list endpoint for the page and filter
    Save was clicked under. *)
Theorem save_sends_overlay_then_reloads :
  (forall r, dom (editSnapshot r) = basicKeys)
  /\ (forall w r,
        editing (ui w) = Some r -> editedFields (ui w) ≠ ∅ ->
        added w ClickSave = [UpdateRecipe (id r) (editedFields (ui w))]
        /\ awaiting (step w ClickSave) !! next_request w
           = Some (AwaitUpdate (page (ui w)) (filter (ui w)))
        /\ ui (step w ClickSave) = ui w)
  /\ (forall w rid p f payload,
        awaiting w !! rid = Some (AwaitUpdate p f) ->
        let w' := step w (Settle rid (Fulfilled payload)) in
        added w (Settle rid (Fulfilled payload))
        = [Alert "Recipe updated successfully!";
           ConsoleLog "Loading recipes...";
           ListRecipes (p * PAGE_SIZE) PAGE_SIZE (if Js.truthy f then Some f else None)]
        /\ isEditing (ui w') = false
        /\ editedFields (ui w') = ∅
        /\ awaiting w' !! next_request w = Some AwaitListRecipes).
Proof.
  split; [|split].
  - intros r. unfold editSnapshot, basicKeys.
    rewrite !dom_insert_L, dom_empty_L. set_solver.
  - intros w r E NE. rewrite (save_issues_update w r E NE). split; [|split].
    + apply added_app. now rewrite (save_issues_update w r E NE).
    + cbn. apply lookup_insert_eq.
    + reflexivity.
  - intros w rid p f payload A w'. subst w'.
    rewrite (settle_update_fulfilled w rid p f payload A). split; [|split; [|split]].
    + apply added_app. rewrite (settle_update_fulfilled w rid p f payload A).
      cbn. now rewrite <- !app_assoc.
    + reflexivity.
    + reflexivity.
    + cbn. apply lookup_insert_eq.
Qed.

Lemma save_sends_overlay_then_reloads_witness :
  added Samples.renamedDal ClickSave
  = [UpdateRecipe 7 (editedFields (ui Samples.renamedDal))]
  /\ added Samples.savingDal (Settle 2 (Fulfilled UpdatedPayload))
     = [Alert "Recipe updated successfully!";
        ConsoleLog "Loading recipes...";
        ListRecipes 0 20 None].
Proof.
  destruct save_sends_overlay_then_reloads as (_ & Save & Reload). split.
  - apply (Save Samples.renamedDal Samples.dal); [vm_compute; reflexivity|].
    intros E. apply (f_equal (fun m => m !! "name")) in E. vm_compute in E. discriminate.
  - apply (Reload Samples.savingDal 2%nat 0 "" UpdatedPayload). vm_compute. reflexivity.
Defined.

(** C1, as stated, fails: after Edit and a change of the name alone, the
    body Save sends for the recipe also carries its description (among
    others), with the very value the recipe has. *)
Lemma save_sends_unchanged_fields :
  exists body,
    added Samples.renamedDal ClickSave = [UpdateRecipe (id Samples.dal) body]
    /\ selectedRecipe (ui Samples.renamedDal) = Some Samples.dal
    /\ ~ onlyChangedFields Samples.dal body.
Proof.
  exists (editedFields (ui Samples.renamedDal)). split; [|split].
  - vm_compute. reflexivity.
  - reflexivity.
  - intros Only.
    apply (Only "description" (JString "Yellow lentils with tempered spices"));
      reflexivity.
Qed.

(** ** Searching *)

Lemma search_issues_request (w : World) (ev : Event) :
  ev = ClickSearch \/ ev = PressEnter ->
  Js.truthy (Js.trim (searchQuery (ui w))) = true ->
  step w ev
  = (setLoading true ;; setIsSearching true ;;
     await (SearchRecipes (searchQuery (ui w))) AwaitSearch)%act w.
Proof.
  intros Ev Q.
  assert (A : available (ui w) ev = true) by (destruct Ev; subst ev; cbn; trivial).
  assert (H : handler (ui w) ev = handleSearch (ui w)) by (destruct Ev; subst ev; reflexivity).
  unfold step, dispatch. rewrite A, H. unfold handleSearch. rewrite Q.
  cbv zeta. now effect_idle.
Qed.

Lemma settle_search_fulfilled (w : World) (rid : nat) (found : list Recipe) :
  awaiting w !! rid = Some AwaitSearch ->
  step w (Settle rid (Fulfilled (RecipesPayload found)))
  = (settle rid ;; setSearchResults found ;; setLoading false)%act w.
Proof.
  intros A. unfold step, dispatch. cbn [available handler]. rewrite A. cbn [resume].
  cbv zeta. now effect_idle.
Qed.




(** ** Paging *)

Lemma settle_list_fulfilled (w : World) (rid : nat) (found : list Recipe) :
  awaiting w !! rid = Some AwaitListRecipes ->
  step w (Settle rid (Fulfilled (RecipesPayload found)))
  = (settle rid ;; perform (ConsoleLog "Recipes loaded:") ;;
     setRecipes found ;; setLoading false)%act w.
Proof.
  intros A. unfold step, dispatch. cbn [available handler]. rewrite A. cbn [resume].
  cbv zeta. now effect_idle.
Qed.

Lemma next_disabled_spec (s : State) (bar : Pagination) :
  pagination s = Some bar ->
  next_disabled bar = true <-> (length (recipes s) < 20)%nat.
Proof.
  unfold pagination. destruct (isSearching s); [discriminate|].
  intros [= <-]. cbn. unfold PAGE_SIZE. rewrite Z.ltb_lt. lia.
Qed.

Lemma click_next (w : World) :
  available (ui w) ClickNext = true ->
  page (ui (step w ClickNext)) = page (ui w) + 1.
Proof.
  intros A. unfold step, dispatch. rewrite A. cbn [handler].
  destruct (depsChanged _ _); reflexivity.
Qed.

(** C6. Once a page has been loaded, the pagination bar (rendered whenever
    the list is not in search mode) has Next disabled exactly when that
    page holds fewer than 20 recipes, and a click on the disabled button
    does nothing; when the page holds 20, Next is enabled and a click moves
    the page index up by one. *)
Theorem next_disabled_iff_short_page (w : World) (rid : nat) (found : list Recipe) :
  awaiting w !! rid = Some AwaitListRecipes ->
  isSearching (ui w) = false ->
  let w' := step w (Settle rid (Fulfilled (RecipesPayload found))) in
  recipes (ui w') = found
  /\ exists bar,
       pagination (ui w') = Some bar
       /\ (next_disabled bar = true <-> (length found < 20)%nat)
       /\ (next_disabled bar = true -> step w' ClickNext = w')
       /\ (length found = 20%nat ->
           next_disabled bar = false
           /\ page (ui (step w' ClickNext)) = page (ui w') + 1).
Proof.
  intros A S w'.
  assert (R : recipes (ui w') = found)
    by (subst w'; now rewrite (settle_list_fulfilled w rid found A)).
  assert (S' : isSearching (ui w') = false)
    by (subst w'; now rewrite (settle_list_fulfilled w rid found A)).
  split; [exact R|].
  destruct (pagination (ui w')) as [bar|] eqn:P;
    [|unfold pagination in P; rewrite S' in P; discriminate].
  exists bar. pose proof (next_disabled_spec _ _ P) as Spec. rewrite R in Spec.
  split; [reflexivity|]. split; [exact Spec|]. split.
  - intros D. apply step_unavailable. cbn [available]. now rewrite P, D.
  - intros Full.
    assert (D : next_disabled bar = false).
    { destruct (next_disabled bar); [|reflexivity].
      destruct Spec as [Short _]. specialize (Short eq_refl). lia. }
    split; [exact D|]. apply click_next. cbn [available]. now rewrite P, D.
Qed.

Lemma next_disabled_iff_short_page_witness :
  let w' := step mounted (Settle 0 (Fulfilled (RecipesPayload Samples.fullPage))) in
  recipes (ui w') = Samples.fullPage
  /\ exists bar,
       pagination (ui w') = Some bar
       /\ (next_disabled bar = true <-> (length Samples.fullPage < 20)%nat)
       /\ (next_disabled bar = true -> step w' ClickNext = w')
       /\ (length Samples.fullPage = 20%nat ->
           next_disabled bar = false
           /\ page (ui (step w' ClickNext)) = page (ui w') + 1).
Proof.
  apply (next_disabled_iff_short_page mounted 0%nat Samples.fullPage);
    vm_compute; reflexivity.
Defined.

(** ** The page index never goes below zero *)

Section PageInvariant.

Variable w : World.
Hypothesis Inv : pageInvariant w.

Lemma inv_update_frame (f : State -> State) :
  (forall s, page (f s) = page s) -> pageInvariant (update f w).
Proof.
  intros Frame. destruct Inv as [P C R]. split; cbn [ui awaiting effects update perform await settle setPage page]; [now rewrite Frame | exact C | exact R].
Qed.

Lemma inv_setPage (v : Z) : 0 <= v -> pageInvariant (setPage v w).
Proof.
  intros V. destruct Inv as [P C R]. split; cbn [ui awaiting effects update perform await settle setPage page]; [exact V | exact C | exact R].
Qed.

Lemma inv_perform (e : Effect) : wellPaged e -> pageInvariant (perform e w).
Proof.
  intros E. destruct Inv as [P C R]. split; cbn [ui awaiting effects update perform await settle setPage page]; [exact P | exact C |].
  apply Forall_app. split; [exact R | now constructor].
Qed.

Lemma inv_await (e : Effect) (k : Continuation) :
  wellPaged e ->
  match k with AwaitUpdate p _ => 0 <= p | _ => True end ->
  pageInvariant (await e k w).
Proof.
  intros E K. destruct Inv as [P C R]. split; cbn [ui awaiting effects update perform await settle setPage page].
  - exact P.
  - intros rid p f L. destruct (decide (next_request w = rid)) as [Fresh|NE].
    + subst rid. rewrite lookup_insert_eq in L. injection L as ->. exact K.
    + rewrite lookup_insert_ne in L by exact NE. eapply C, L.
  - apply Forall_app. split; [exact R | now constructor].
Qed.

Lemma inv_settle (rid : nat) : pageInvariant (settle rid w).
Proof.
  destruct Inv as [P C R]. split; cbn [ui awaiting effects update perform await settle setPage page]; [exact P | | exact R].
  intros rid' p f L. apply lookup_delete_Some in L as [_ L]. eapply C, L.
Qed.

End PageInvariant.

Lemma wellPaged_list (p : Z) (st : option string) :
  0 <= p -> wellPaged (ListRecipes (p * PAGE_SIZE) PAGE_SIZE st).
Proof.
  intros P. split; [reflexivity|]. now exists p.
Qed.

Lemma inv_loadRecipes (w : World) (p : Z) (f : string) :
  0 <= p -> pageInvariant w -> pageInvariant (loadRecipes p f w).
Proof.
  intros P Inv. unfold loadRecipes, andThen.
  apply inv_await; [|now apply wellPaged_list | exact I].
  apply inv_perform; [|exact I].
  now apply inv_update_frame.
Qed.

Lemma inv_useEffect (w : World) : pageInvariant w -> pageInvariant (useEffect w).
Proof.
  intros Inv. unfold useEffect, loadStatistics, andThen.
  apply inv_await; [|exact I|exact I].
  apply inv_loadRecipes; [apply (page_nonneg w Inv) | exact Inv].
Qed.

(** Discharges the invariant of a handler made of setters, effects that are
    no list request, and [await]s. *)
Ltac keep_invariant :=
  repeat first
    [ assumption
    | apply inv_setPage; [|lia]
    | apply inv_update_frame; [|reflexivity]
    | apply inv_perform; [|exact I]
    | apply inv_settle
    | apply inv_await; [|exact I|first [exact I | assumption]] ].

Lemma inv_resume (w : World) (rid : nat) (k : Continuation) (r : Settlement) (rest : Action) :
  pageInvariant w -> awaiting w !! rid = Some k -> resume k r = Some rest ->
  pageInvariant (rest (settle rid w)).
Proof.
  intros Inv A R.
  assert (K : match k with AwaitUpdate p _ => 0 <= p | _ => True end).
  { destruct k; trivial. eapply (closures_nonneg w Inv), A. }
  destruct k, r as [[found|stats|]|e]; cbn in R; try discriminate;
    injection R as <-; unfold andThen; try (now keep_invariant);
    apply inv_loadRecipes; try exact K; keep_invariant.
Qed.

Lemma inv_dispatch (w : World) (ev : Event) :
  pageInvariant w -> pageInvariant (dispatch w ev).
Proof.
  intros Inv. pose proof (page_nonneg w Inv) as P.
  unfold dispatch. destruct (available (ui w) ev); [|exact Inv].
  destruct ev; cbn [handler];
    unfold handleSearch, clearSearch, handleSave, overlay, skip, andThen;
    repeat case_match; try exact Inv; try (now keep_invariant).
  eapply inv_resume; eassumption.
Qed.

Lemma inv_step (w : World) (ev : Event) :
  pageInvariant w -> pageInvariant (step w ev).
Proof.
  intros Inv. unfold step. cbv zeta. apply (inv_dispatch w ev) in Inv.
  destruct (depsChanged _ _); [now apply inv_useEffect | exact Inv].
Qed.

Lemma inv_run (evs : list Event) (w : World) :
  pageInvariant w -> pageInvariant (run w evs).
Proof.
  revert w. induction evs as [|ev evs IH]; intros w Inv; [exact Inv|].
  cbn. apply IH, inv_step, Inv.
Qed.

Lemma inv_mounted : pageInvariant mounted.
Proof.
  apply inv_useEffect. split; cbn; [lia | | constructor].
  intros rid p f L. rewrite lookup_empty in L. discriminate.
Qed.

Lemma previous_disabled_spec (s : State) (bar : Pagination) :
  pagination s = Some bar -> previous_disabled bar = true <-> page s = 0.
Proof.
  unfold pagination. destruct (isSearching s); [discriminate|].
  intros [= <-]. cbn. apply Z.eqb_eq.
Qed.

Lemma click_previous (w : World) :
  available (ui w) ClickPrevious = true ->
  page (ui (step w ClickPrevious)) = Z.max 0 (page (ui w) - 1).
Proof.
  intros A. unfold step, dispatch. rewrite A. cbn [handler].
  destruct (depsChanged _ _); reflexivity.
Qed.

Lemma select_filter (w : World) (o : FilterOption) :
  available (ui w) (SelectFilter o) = true ->
  page (ui (step w (SelectFilter o))) = 0
  /\ filter (ui (step w (SelectFilter o))) = option_value o.
Proof.
  intros A. unfold step, dispatch. rewrite A. cbn [handler].
  destruct (depsChanged _ _); split; reflexivity.
Qed.

(** C10. The page index starts at 0.  Previous is disabled exactly on page
    0, where a click on it changes nothing, and otherwise sets the index to
    [max(0, page - 1)]; choosing a status filter sets it to 0.  In every
    state the component reaches from its mount, whatever the events, the
    index is non-negative, and every list request issued so far asked for
    an offset that is a non-negative multiple of 20, with limit 20. *)
Theorem page_index_never_negative :
  page initial = 0
  /\ (forall w bar,
        pagination (ui w) = Some bar ->
        (previous_disabled bar = true <-> page (ui w) = 0)
        /\ (previous_disabled bar = true -> step w ClickPrevious = w)
        /\ (previous_disabled bar = false ->
            page (ui (step w ClickPrevious)) = Z.max 0 (page (ui w) - 1)))
  /\ (forall w o,
        is_Some (filterSelect (ui w)) -> page (ui (step w (SelectFilter o))) = 0)
  /\ (forall evs,
        let w := run mounted evs in
        0 <= page (ui w)
        /\ forall skip limit st,
             ListRecipes skip limit st ∈ effects w ->
             0 <= skip /\ limit = 20 /\ exists p, 0 <= p /\ skip = p * 20).
Proof.
  split; [reflexivity|]. split; [|split].
  - intros w bar P. split; [now apply previous_disabled_spec|]. split.
    + intros D. apply step_unavailable. cbn [available]. now rewrite P, D.
    + intros D. apply click_previous. cbn [available]. now rewrite P, D.
  - intros w o F. apply select_filter. cbn [available]. now apply bool_decide_eq_true_2.
  - intros evs w. pose proof (inv_run evs mounted inv_mounted) as [P _ R].
    fold w in P, R. split; [exact P|].
    intros skip limit st In.
    rewrite Forall_forall in R. apply R in In as (L & p & Pp & ->).
    unfold PAGE_SIZE in *. split; [lia|]. split; [exact L|]. now exists p.
Qed.

Lemma page_index_never_negative_witness :
  page (ui (step Samples.secondPendingPage ClickPrevious))
  = Z.max 0 (page (ui Samples.secondPendingPage) - 1)
  /\ page (ui (step Samples.secondPendingPage (SelectFilter Validated))) = 0
  /\ 0 <= page (ui (run mounted [ClickPrevious; ClickNext; ClickPrevious])).
Proof.
  destruct page_index_never_negative as (_ & Previous & Filter & Reach).
  split; [|split].
  - eapply (Previous Samples.secondPendingPage); vm_compute; reflexivity.
  - apply (Filter Samples.secondPendingPage Validated). vm_compute. eauto.
  - apply (Reach [ClickPrevious; ClickNext; ClickPrevious]).
Defined.

End DataManagerProperties.


(** * Properties of the specific-generation tab *)

Module GenerationProperties.

Import SpecificGeneration.
Local Open Scope list_scope.

Lemma generation_added_app (w : World) (ev : Event) (new : list Effect) :
  effects (step w ev) = effects w ++ new -> added w ev = new.
Proof.
  intros E. unfold added. rewrite E. apply drop_app_length.
Qed.

Lemma generation_added_nil (w : World) (ev : Event) :
  effects (step w ev) = effects w -> added w ev = [].
Proof.
  intros E. apply generation_added_app. now rewrite app_nil_r.
Qed.

Lemma generation_step_unavailable (w : World) (ev : Event) :
  available w ev = false -> step w ev = w.
Proof.
  intros E. unfold step. now rewrite E.
Qed.

Lemma settle_resumes (w : World) (rid : nat) (k : Continuation) (r : Settlement)
    (rest : Action) :
  awaiting w !! rid = Some k -> resume k r = Some rest ->
  step w (Settle rid r) = rest (settle rid w).
Proof.
  intros A R. unfold step. cbn [available handler]. now rewrite A, R.
Qed.

(** ** Intervals are set with a delay of 2000 ms, under fresh handles *)

Section TimerInvariant.

Variable w : World.
Hypothesis Inv : timerInvariant w.

Lemma tinv_update (f : State -> State) : timerInvariant (update f w).
Proof.
  destruct Inv as [T C]. now split.
Qed.

Lemma tinv_perform (e : Effect) : timerInvariant (perform e w).
Proof.
  destruct Inv as [T C]. now split.
Qed.

Lemma tinv_settle (rid : nat) : timerInvariant (settle rid w).
Proof.
  destruct Inv as [T C]. split; [exact T|].
  cbn [settle awaiting next_timer]. intros rid' k i L.
  apply lookup_delete_Some in L as [_ L]. eapply C, L.
Qed.

Lemma tinv_await (e : Effect) (k : Continuation) :
  (forall i, cycleOf i k = true -> (i < next_timer w)%nat) ->
  timerInvariant (await e k w).
Proof.
  intros K. destruct Inv as [T C]. split; [exact T|].
  cbn [await awaiting next_timer]. intros rid k' i L.
  destruct (decide (next_request w = rid)) as [Fresh|Old].
  - subst rid. rewrite lookup_insert_eq in L. injection L as <-. apply K.
  - rewrite lookup_insert_ne in L by exact Old. eapply C, L.
Qed.

Lemma tinv_setInterval : timerInvariant (setInterval 2000 w).
Proof.
  destruct Inv as [T C]. split; cbn [setInterval timers awaiting next_timer].
  - intros i d L. destruct (decide (next_timer w = i)) as [Fresh|Old].
    + subst i. rewrite lookup_insert_eq in L. injection L as <-. split; [reflexivity | lia].
    + rewrite lookup_insert_ne in L by exact Old.
      destruct (T i d L) as [D B]. split; [exact D | lia].
  - intros rid k i L Cy. specialize (C rid k i L Cy). lia.
Qed.

Lemma tinv_clearInterval (i : nat) : timerInvariant (clearInterval i w).
Proof.
  destruct Inv as [T C]. split; [|exact C].
  cbn [clearInterval timers next_timer]. intros j d L.
  apply lookup_delete_Some in L as [_ L]. eapply T, L.
Qed.

End TimerInvariant.

Ltac keep_timers :=
  repeat first
    [ assumption
    | apply tinv_update
    | apply tinv_perform
    | apply tinv_settle
    | apply tinv_setInterval
    | apply tinv_clearInterval
    | apply tinv_await; [|intros ? [=]] ].

Lemma tinv_resume (w : World) (rid : nat) (k : Continuation) (r : Settlement)
    (rest : Action) :
  timerInvariant w -> awaiting w !! rid = Some k -> resume k r = Some rest ->
  timerInvariant (rest (settle rid w)).
Proof.
  intros Inv A R.
  assert (K : forall i, cycleOf i k = true -> (i < next_timer w)%nat)
    by (intros i; apply (cycles_known w Inv rid k i A)).
  destruct k as [| |j|j job], r as [[found|  |[[|latest rest']|]|fetched]|e];
    cbn in R; try discriminate; injection R as <-; unfold andThen, skip;
    repeat case_match; try (now keep_timers).
  apply tinv_await; [now keep_timers|].
  cbn. intros i E. apply K. exact E.
Qed.

Lemma tinv_step (w : World) (ev : Event) :
  timerInvariant w -> timerInvariant (step w ev).
Proof.
  intros Inv. unfold step. destruct (available w ev) eqn:A; [|exact Inv].
  destruct ev; cbn [handler];
    unfold handleSearch, handleGenerate, poll, skip, andThen;
    repeat case_match; try exact Inv; try (now keep_timers).
  - apply tinv_await; [exact Inv|]. cbn. intros i E.
    apply bool_decide_eq_true in E. subst i.
    cbn in A. apply bool_decide_eq_true in A as [d L].
    now apply (timers_known w Inv interval d).
  - eapply tinv_resume; eassumption.
Qed.

Lemma tinv_run (evs : list Event) (w : World) :
  timerInvariant w -> timerInvariant (run w evs).
Proof.
  revert w. induction evs as [|ev evs IH]; intros w Inv; [exact Inv|].
  cbn. apply IH, tinv_step, Inv.
Qed.

Lemma tinv_mounted : timerInvariant mounted.
Proof.
  split; cbn; intros *; rewrite lookup_empty; discriminate.
Qed.

(** ** A cleared interval stays silent *)

Section Stopped.

Variable guard : Continuation -> bool.
Variable watch : Effect -> bool.
Variable i : nat.

Hypothesis watch_poll : forall j u, j <> i -> watch (PollJobs j u) = false.
Hypothesis watch_logs :
  forall j job limit, guard (AwaitJobs j) = false -> watch (GetJobLogs j job limit) = false.
Hypothesis watch_other :
  forall e, match e with PollJobs _ _ | GetJobLogs _ _ _ => False | _ => True end ->
            watch e = false.
Hypothesis guard_jobs : forall j, j <> i -> guard (AwaitJobs j) = false.
Hypothesis guard_logs :
  forall j job, guard (AwaitJobs j) = false -> guard (AwaitLogs j job) = false.
Hypothesis guard_search : guard AwaitSearch = false.
Hypothesis guard_start : guard AwaitStart = false.

Section Primitives.

Variable base : list Effect.
Variable w : World.
Hypothesis St : stopped guard watch i base w.

Lemma st_update (f : State -> State) : stopped guard watch i base (update f w).
Proof.
  destruct St as [T H P L]. now split.
Qed.

Lemma st_perform (e : Effect) :
  watch e = false -> stopped guard watch i base (perform e w).
Proof.
  intros E. destruct St as [T H P L]. split; [exact T | exact H | exact P |].
  cbn [perform effects]. rewrite List.filter_app, L. cbn. rewrite E. apply app_nil_r.
Qed.

Lemma st_settle (rid : nat) : stopped guard watch i base (settle rid w).
Proof.
  destruct St as [T H P L]. split; [exact T | exact H | | exact L].
  cbn [settle awaiting]. intros rid' k A.
  apply lookup_delete_Some in A as [_ A]. eapply P, A.
Qed.

Lemma st_await (e : Effect) (k : Continuation) :
  watch e = false -> guard k = false -> stopped guard watch i base (await e k w).
Proof.
  intros E K. destruct St as [T H P L]. split; [exact T | exact H | |].
  - cbn [await awaiting]. intros rid k' A.
    destruct (decide (next_request w = rid)) as [Fresh|Old].
    + subst rid. rewrite lookup_insert_eq in A. now injection A as <-.
    + rewrite lookup_insert_ne in A by exact Old. eapply P, A.
  - cbn [await effects]. rewrite List.filter_app, L. cbn. rewrite E. apply app_nil_r.
Qed.

Lemma st_setInterval (delay : Z) : stopped guard watch i base (setInterval delay w).
Proof.
  destruct St as [T H P L]. split; cbn [setInterval timers next_timer awaiting effects].
  - rewrite lookup_insert_ne by lia. exact T.
  - lia.
  - exact P.
  - rewrite List.filter_app, L. cbn. rewrite watch_other by exact I. apply app_nil_r.
Qed.

Lemma st_clearInterval (j : nat) : stopped guard watch i base (clearInterval j w).
Proof.
  destruct St as [T H P L]. split; cbn [clearInterval timers next_timer awaiting effects].
  - apply lookup_delete_None. now right.
  - exact H.
  - exact P.
  - rewrite List.filter_app, L. cbn. rewrite watch_other by exact I. apply app_nil_r.
Qed.

End Primitives.

Ltac keep_stopped :=
  repeat first
    [ assumption
    | apply st_update
    | apply st_settle
    | apply st_setInterval
    | apply st_clearInterval
    | apply st_perform; [|apply watch_other; exact I]
    | apply st_await; [|apply watch_other; exact I|assumption] ].

Lemma st_resume (base : list Effect) (w : World) (rid : nat) (k : Continuation)
    (r : Settlement) (rest : Action) :
  stopped guard watch i base w -> awaiting w !! rid = Some k -> resume k r = Some rest ->
  stopped guard watch i base (rest (settle rid w)).
Proof.
  intros St A R. pose proof (none_pending _ _ _ _ _ St rid k A) as K.
  destruct k as [| |j|j job], r as [[found|  |[[|latest rest']|]|fetched]|e];
    cbn in R; try discriminate; injection R as <-; unfold andThen, skip;
    repeat case_match; try (now keep_stopped).
  apply st_await; [now keep_stopped | now apply watch_logs | now apply guard_logs].
Qed.

Lemma st_step (base : list Effect) (w : World) (ev : Event) :
  stopped guard watch i base w -> stopped guard watch i base (step w ev).
Proof.
  intros St. unfold step. destruct (available w ev) eqn:A; [|exact St].
  destruct ev; cbn [handler];
    unfold handleSearch, handleGenerate, poll, skip, andThen;
    repeat case_match; try exact St; try (now keep_stopped).
  - assert (NE : interval <> i).
    { intros ->. cbn in A. apply bool_decide_eq_true in A as [d L].
      rewrite (timer_gone _ _ _ _ _ St) in L. discriminate. }
    apply st_await; [exact St | now apply watch_poll | now apply guard_jobs].
  - eapply st_resume; eassumption.
Qed.

Lemma st_run (base : list Effect) (evs : list Event) (w : World) :
  stopped guard watch i base w -> stopped guard watch i base (run w evs).
Proof.
  revert w. induction evs as [|ev evs IH]; intros w St; [exact St|].
  cbn. apply IH, st_step, St.
Qed.

End Stopped.

(** After an interval is cleared none of its ticks is taken, so no job
    fetch of that interval joins the log. *)
Lemma cleared_no_job_fetch (i : nat) (w : World) (more : list Event) :
  timers w !! i = None -> (i < next_timer w)%nat ->
  jobFetches i (run w more) = jobFetches i w.
Proof.
  intros T H.
  apply (log_same (fun _ => false) (jobFetchOf i) i (jobFetches i w) (run w more)).
  apply st_run; try (now split); try reflexivity.
  - intros j u NE. cbn. now apply bool_decide_eq_false_2.
  - now intros [].
Qed.

(** If moreover none of its poll cycles is in flight, no fetch at all. *)
Lemma cleared_and_settled_no_fetch (i : nat) (w : World) (more : list Event) :
  timers w !! i = None -> (i < next_timer w)%nat -> ¬ inFlight i w ->
  fetches i (run w more) = fetches i w.
Proof.
  intros T H Q.
  apply (log_same (cycleOf i) (fetchOf i) i (fetches i w) (run w more)).
  apply st_run; try reflexivity.
  - intros j u NE. cbn. now apply bool_decide_eq_false_2.
  - intros j job limit G. cbn in *. exact G.
  - now intros [].
  - intros j NE. cbn. now apply bool_decide_eq_false_2.
  - intros j job G. exact G.
  - split; [exact T | exact H | | reflexivity].
    intros rid k A. destruct (cycleOf i k) eqn:C; [|reflexivity].
    exfalso. apply Q. now exists rid, k.
Qed.

(** ** The polling loop *)

Lemma terminal_spec (st : string) :
  terminal st = true <-> st = "completed" \/ st = "failed" \/ st = "cancelled".
Proof.
  unfold terminal. rewrite bool_decide_eq_true, !elem_of_cons, elem_of_nil. tauto.
Qed.

Lemma settle_logs_terminal (w : World) (rid i : nat) (job : Job)
    (fetched : list RegenerationLog) :
  awaiting w !! rid = Some (AwaitLogs i job) -> terminal (status job) = true ->
  step w (Settle rid (Fulfilled (LogsPayload fetched)))
  = (settle rid ;; setLogs fetched ;; clearInterval i ;; setIsGenerating false ;;
     setMessage (Some (outcomeMessage (status job))))%act w.
Proof.
  intros A T.
  rewrite (settle_resumes w rid _ (Fulfilled (LogsPayload fetched)) _ A eq_refl).
  unfold andThen. now rewrite T.
Qed.

Lemma settle_logs_running (w : World) (rid i : nat) (job : Job)
    (fetched : list RegenerationLog) :
  awaiting w !! rid = Some (AwaitLogs i job) -> terminal (status job) = false ->
  step w (Settle rid (Fulfilled (LogsPayload fetched)))
  = (settle rid ;; setLogs fetched)%act w.
Proof.
  intros A T.
  rewrite (settle_resumes w rid _ (Fulfilled (LogsPayload fetched)) _ A eq_refl).
  unfold andThen. now rewrite T.
Qed.

Lemma tick_polls (w : World) (i : nat) (d : Z) :
  timers w !! i = Some d ->
  step w (Tick i) = await (PollJobs i jobs_url) (AwaitJobs i) w.
Proof.
  intros T. unfold step. cbn [available handler].
  rewrite bool_decide_eq_true_2 by eauto. reflexivity.
Qed.

Lemma tick_of_cleared (w : World) (i : nat) :
  timers w !! i = None -> step w (Tick i) = w.
Proof.
  intros T. apply generation_step_unavailable. cbn [available].
  apply bool_decide_eq_false_2. rewrite T. now intros [d E].
Qed.

Lemma settle_keeps_timers_unless_terminal (w : World) (rid i : nat)
    (k : Continuation) (r : Settlement) :
  awaiting w !! rid = Some k ->
  cycleOf i k = true ->
  (forall job fetched,
      k = AwaitLogs i job -> r = Fulfilled (LogsPayload fetched) ->
      terminal (status job) = false) ->
  timers (step w (Settle rid r)) = timers w.
Proof.
  intros A C Running. unfold step. cbn [available handler]. rewrite A.
  destruct (resume k r) as [rest|] eqn:R; [|reflexivity].
  destruct k as [| |j|j job], r as [[found|  |[[|latest rest']|]|fetched]|e];
    cbn in C, R; try discriminate; injection R as <-; unfold andThen, skip;
    repeat case_match; try reflexivity.
  apply bool_decide_eq_true in C. subst j.
  now rewrite (Running job fetched eq_refl eq_refl) in *.
Qed.

(** C2, as the component has it.  An interval that is set has the delay of
    2000 ms, and each of its ticks issues one job fetch.  A poll cycle
    clears the interval only at its end: when the logs of a fetched job
    whose status is completed, failed or cancelled have arrived.  From then
    on a tick of that interval does nothing, no job fetch of that run is
    ever issued again, and, from any moment at which no cycle of the run
    is in flight any more, no fetch of that run at all.  Every other way a
    request of a poll cycle can settle (no job, a job that is not terminal,
    a failed job or logs fetch) leaves the intervals as they were. *)
Theorem polling_stops_once_terminal_logs_arrive :
  (forall evs i d,
      let w := run mounted evs in
      timers w !! i = Some d ->
      d = 2000
      /\ added w (Tick i) = [PollJobs i jobs_url]
      /\ timers (step w (Tick i)) = timers w)
  /\ (forall evs rid i job fetched,
        let w := run mounted evs in
        let w' := step w (Settle rid (Fulfilled (LogsPayload fetched))) in
        awaiting w !! rid = Some (AwaitLogs i job) ->
        terminal (status job) = true ->
        added w (Settle rid (Fulfilled (LogsPayload fetched))) = [ClearInterval i]
        /\ timers w' !! i = None
        /\ isGenerating (ui w') = false
        /\ (forall more, step (run w' more) (Tick i) = run w' more)
        /\ (forall more, jobFetches i (run w' more) = jobFetches i w')
        /\ (forall more,
              ¬ inFlight i (run w' more) ->
              forall later,
                fetches i (run (run w' more) later) = fetches i (run w' more)))
  /\ (forall w rid i k r,
        awaiting w !! rid = Some k ->
        cycleOf i k = true ->
        (forall job fetched,
            k = AwaitLogs i job -> r = Fulfilled (LogsPayload fetched) ->
            terminal (status job) = false) ->
        timers (step w (Settle rid r)) = timers w).
Proof.
  split; [|split].
  - intros evs i d w T. pose proof (tinv_run evs mounted tinv_mounted) as Inv. fold w in Inv.
    split; [apply (timers_known w Inv i d T)|].
    rewrite (tick_polls w i d T). split; [|reflexivity].
    apply generation_added_app. now rewrite (tick_polls w i d T).
  - intros evs rid i job fetched w w' A T.
    pose proof (tinv_run evs mounted tinv_mounted) as Inv. fold w in Inv.
    assert (E : w' = (settle rid ;; setLogs fetched ;; clearInterval i ;;
                      setIsGenerating false ;;
                      setMessage (Some (outcomeMessage (status job))))%act w)
      by (subst w'; now apply settle_logs_terminal).
    assert (Gone : timers w' !! i = None)
      by (rewrite E; cbn; apply lookup_delete_eq).
    assert (Used : (i < next_timer w')%nat).
    { rewrite E. cbn. apply (cycles_known w Inv rid (AwaitLogs i job) i A).
      cbn. now apply bool_decide_eq_true_2. }
    assert (Dead : forall more,
               stopped (fun _ => false) (jobFetchOf i) i (jobFetches i w') (run w' more)).
    { intros more. apply st_run; try (now split); try reflexivity.
      - intros j u NE. cbn. now apply bool_decide_eq_false_2.
      - now intros []. }
    split; [|split; [exact Gone|split; [now rewrite E|split; [|split]]]].
    + apply generation_added_app. fold w'. now rewrite E.
    + intros more. apply tick_of_cleared, (timer_gone _ _ _ _ _ (Dead more)).
    + intros more. apply (log_same _ _ _ _ _ (Dead more)).
    + intros more Q later. apply cleared_and_settled_no_fetch; [| |exact Q].
      * apply (timer_gone _ _ _ _ _ (Dead more)).
      * apply (handle_used _ _ _ _ _ (Dead more)).
  - intros w rid i k r A C Running.
    now apply (settle_keeps_timers_unless_terminal w rid i k r).
Qed.

Lemma polling_stops_once_terminal_logs_arrive_witness :
  let w := run mounted Samples.untilLogsOfCompletedJob in
  let w' := step w (Settle 3 (Fulfilled (LogsPayload [Samples.firstLog]))) in
  added w (Settle 3 (Fulfilled (LogsPayload [Samples.firstLog]))) = [ClearInterval 0]
  /\ timers w' !! 0%nat = None
  /\ isGenerating (ui w') = false
  /\ (forall more, step (run w' more) (Tick 0) = run w' more)
  /\ (forall more, jobFetches 0 (run w' more) = jobFetches 0 w')
  /\ (forall more,
        ¬ inFlight 0 (run w' more) ->
        forall later, fetches 0 (run (run w' more) later) = fetches 0 (run w' more)).
Proof.
  destruct polling_stops_once_terminal_logs_arrive as (_ & Stop & _).
  apply (Stop Samples.untilLogsOfCompletedJob 3%nat 0%nat Samples.completedJob
              [Samples.firstLog]); vm_compute; reflexivity.
Defined.

(** C2, as stated, fails: the first cycle fetches a completed job, its logs
    request fails, and the interval is still set: the next tick fetches the
    jobs again. *)
Lemma polling_survives_failed_logs_fetch :
  let w := step (Samples.awaitingLogsOf Samples.completedJob)
                (Settle 3 (Rejected Samples.serverDown)) in
  terminal (status Samples.completedJob) = true
  /\ timers w !! 0%nat = Some 2000
  /\ added w (Tick 0) = [PollJobs 0 jobs_url].
Proof.
  vm_compute. repeat split.
Qed.

(** A second way: with two cycles in flight, the one that settles last
    still fetches logs after the other has cleared the interval. *)
Lemma late_cycle_fetches_logs_after_clear :
  let w := run Samples.polling
             [Tick 0; Tick 0;
              Settle 2 (Fulfilled (JobsPayload (Some [Samples.completedJob])));
              Settle 4 (Fulfilled (LogsPayload [Samples.firstLog]))] in
  timers w !! 0%nat = None
  /\ added w (Settle 3 (Fulfilled (JobsPayload (Some [Samples.completedJob]))))
     = [GetJobLogs 0 41 20].
Proof.
  vm_compute. repeat split.
Qed.

(** ** The displayed logs *)

(** C4, as the component has it.  A poll cycle that found a job asks for
    at most 20 of its log lines, and when they arrive they replace the
    log list: the list is then exactly what was fetched, and the panel
    (shown while a recipe is selected) displays exactly that. *)
Theorem poll_replaces_displayed_logs :
  (forall w rid i job others,
      awaiting w !! rid = Some (AwaitJobs i) ->
      added w (Settle rid (Fulfilled (JobsPayload (Some (job :: others)))))
      = [GetJobLogs i (job_id job) 20])
  /\ (forall w rid i job fetched,
        awaiting w !! rid = Some (AwaitLogs i job) ->
        let w' := step w (Settle rid (Fulfilled (LogsPayload fetched))) in
        logs (ui w') = fetched
        /\ logPanel (ui w')
           = match selectedRecipe (ui w) with Some _ => fetched | None => [] end).
Proof.
  split.
  - intros w rid i job others A. apply generation_added_app.
    now rewrite (settle_resumes w rid _
                   (Fulfilled (JobsPayload (Some (job :: others)))) _ A eq_refl).
  - intros w rid i job fetched A w'. subst w'.
    destruct (terminal (status job)) eqn:T.
    + now rewrite (settle_logs_terminal w rid i job fetched A T).
    + now rewrite (settle_logs_running w rid i job fetched A T).
Qed.

Lemma poll_replaces_displayed_logs_witness :
  let w := Samples.awaitingLogsOf Samples.runningJob in
  let w' := step w (Settle 3 (Fulfilled (LogsPayload [Samples.firstLog]))) in
  logs (ui w') = [Samples.firstLog]
  /\ logPanel (ui w')
     = match selectedRecipe (ui w) with Some _ => [Samples.firstLog] | None => [] end.
Proof.
  destruct poll_replaces_displayed_logs as (_ & Arrive).
  apply (Arrive (Samples.awaitingLogsOf Samples.runningJob) 3%nat 0%nat Samples.runningJob
                [Samples.firstLog]).
  vm_compute. reflexivity.
Defined.

(** C4, as stated, fails: the line displayed after the first cycle is gone
    after the second, whose fetch returned another line. *)
Lemma earlier_logs_are_dropped :
  let w1 := step (Samples.awaitingLogsOf Samples.runningJob)
                 (Settle 3 (Fulfilled (LogsPayload [Samples.firstLog]))) in
  let w2 := run w1 [Tick 0;
                    Settle 4 (Fulfilled (JobsPayload (Some [Samples.runningJob])));
                    Settle 5 (Fulfilled (LogsPayload [Samples.secondLog]))] in
  (Samples.firstLog ∈ logPanel (ui w1))
  /\ (Samples.firstLog ∉ logPanel (ui w2))
  /\ logPanel (ui w2) = [Samples.secondLog].
Proof.
  cbv zeta. split; [|split].
  - vm_compute. apply list_elem_of_here.
  - intros In.
    assert (E : logPanel (ui (run (step (Samples.awaitingLogsOf Samples.runningJob)
                                        (Settle 3 (Fulfilled (LogsPayload [Samples.firstLog]))))
                                  [Tick 0;
                                   Settle 4 (Fulfilled (JobsPayload (Some [Samples.runningJob])));
                                   Settle 5 (Fulfilled (LogsPayload [Samples.secondLog]))]))
                = [Samples.secondLog]) by (vm_compute; reflexivity).
    rewrite E in In. apply list_elem_of_singleton in In. discriminate.
  - vm_compute. reflexivity.
Qed.

(** ** Starting a generation *)

Lemma resume_never_starts (k : Continuation) (r : Settlement) (rest : Action) (w : World) :
  resume k r = Some rest ->
  exists new, effects (rest w) = effects w ++ new
              /\ forall req, StartSpecificGeneration req ∉ new.
Proof.
  intros R.
  destruct k as [| |j|j job], r as [[found|  |[[|latest rest']|]|fetched]|e];
    cbn in R; try discriminate; injection R as <-; unfold andThen, skip;
    repeat case_match; cbn;
    first [ (exists (@nil Effect)); rewrite app_nil_r; split; [reflexivity|];
            intros req In; now apply elem_of_nil in In
          | (eexists (cons _ nil)); split; [reflexivity|]; intros req In;
            apply list_elem_of_singleton in In; discriminate ].
Qed.

Lemma start_only_by_button (w : World) (ev : Event) (req : GenerationRequest) :
  StartSpecificGeneration req ∈ added w ev ->
  ev = ClickStart /\ available w ClickStart = true
  /\ exists r, selectedRecipe (ui w) = Some r
               /\ req = generationRequest (ui w) r
               /\ added w ev = [StartSpecificGeneration req].
Proof.
  unfold added, step. destruct (available w ev) eqn:A;
    [|rewrite drop_all; intros In; now apply elem_of_nil in In].
  destruct ev; cbn [handler]; unfold handleSearch, handleGenerate, poll, skip, andThen.
  all: repeat case_match; cbn [effects update perform await setSearchQuery
                                 setSelectedRecipe setFix setIsSearching setIsGenerating
                                 setLogs setMessage];
    rewrite ?drop_all, ?drop_app_length; intros In;
    try (now apply elem_of_nil in In);
    try (apply list_elem_of_singleton in In; try discriminate).
  - injection In as ->. split; [reflexivity|]. split; [exact A|]. eauto.
  - match goal with R : resume _ _ = Some ?rest |- _ =>
      destruct (resume_never_starts _ _ rest (settle rid w) R) as (new & E & Not)
    end.
    cbn [settle effects] in E. rewrite E, drop_app_length in In. now apply Not in In.
Qed.

(** C9. [handleGenerate] does nothing at all when no recipe is selected.
    The Start Generation button is rendered only while a recipe is
    selected, and is disabled exactly while a generation is in progress or
    none of the five options is ticked.  Hence whenever an event makes the
    component submit a generation request, the event is a click on that
    button with a recipe selected, at least one option ticked and no
    generation in progress, the request is the only effect of the event,
    and it consists of the name of the selected recipe and the five
    flags. *)
Theorem generation_needs_recipe_and_option :
  (forall w, selectedRecipe (ui w) = None -> handleGenerate (ui w) w = w)
  /\ (forall s,
        startButton s
        = match selectedRecipe s with
          | Some _ => Some (isGenerating s
                            || negb (fixMainImage s || fixIngredientsImage s
                                     || fixStepsImages s || fixStepsText s
                                     || fixIngredientsText s))
          | None => None
          end)
  /\ (forall w ev req,
        StartSpecificGeneration req ∈ added w ev ->
        ev = ClickStart
        /\ isGenerating (ui w) = false
        /\ atLeastOneOptionSelected (ui w) = true
        /\ added w ev = [StartSpecificGeneration req]
        /\ exists r,
             selectedRecipe (ui w) = Some r
             /\ req = {| recipe_name := name r;
                         fix_main_image := fixMainImage (ui w);
                         fix_ingredients_image := fixIngredientsImage (ui w);
                         fix_steps_images := fixStepsImages (ui w);
                         fix_steps_text := fixStepsText (ui w);
                         fix_ingredients_text := fixIngredientsText (ui w) |}).
Proof.
  split; [|split].
  - intros w N. unfold handleGenerate. now rewrite N.
  - intros s. reflexivity.
  - intros w ev req In.
    destruct (start_only_by_button w ev req In) as (-> & A & r & Sel & -> & Only).
    cbn [available] in A. unfold startButton in A. rewrite Sel in A.
    apply negb_true_iff, orb_false_iff in A as [G O].
    apply negb_false_iff in O.
    split; [reflexivity|]. split; [exact G|]. split; [exact O|]. split; [exact Only|].
    exists r. split; [exact Sel | reflexivity].
Qed.

Lemma generation_needs_recipe_and_option_witness :
  handleGenerate (ui mounted) mounted = mounted
  /\ isGenerating (ui Samples.readyToGenerate) = false
  /\ atLeastOneOptionSelected (ui Samples.readyToGenerate) = true.
Proof.
  destruct generation_needs_recipe_and_option as (Guard & _ & Only). split.
  - apply (Guard mounted). reflexivity.
  - assert (In : StartSpecificGeneration
                   (generationRequest (ui Samples.readyToGenerate) Samples.dal)
                 ∈ added Samples.readyToGenerate ClickStart)
      by (vm_compute; apply list_elem_of_here).
    destruct (Only Samples.readyToGenerate ClickStart _ In) as (_ & G & O & _).
    split; [exact G | exact O].
Defined.

End GenerationProperties.


(** * Images that fail to load *)

Module ImageProperties.

Import DataManager Images.
Local Open Scope list_scope.

Lemma placeholder_inline (place : Slot) : inline (placeholder place) = true.
Proof.
  destruct place; vm_compute; reflexivity.
Qed.

Lemma placeholder_texts :
  placeholder PreviewMain
  = String.concat Js.dq
      ["data:image/svg+xml,<svg xmlns="; "http://www.w3.org/2000/svg"; " width="; "100";
       " height="; "100"; "><text x="; "50%"; " y="; "50%"; " text-anchor="; "middle";
       " dy="; ".3em"; " fill="; "%23666"; ">Invalid URL</text></svg>"]
  /\ placeholder (PreviewStep 0)
     = String.concat Js.dq
         ["data:image/svg+xml,<svg xmlns="; "http://www.w3.org/2000/svg"; " width="; "50";
          " height="; "50"; "><text x="; "50%"; " y="; "50%"; " text-anchor="; "middle";
          " dy="; ".3em"; " fill="; "%23666"; " font-size="; "10"; ">!</text></svg>"].
Proof.
  split; vm_compute; reflexivity.
Qed.



(** The panel does display the three kinds of image of a recipe that has
    them. *)
Lemma status_images_displayed (s : State) (r : Recipe) (u : string) :
  selectedRecipe s = Some r -> Js.truthy u = true ->
  (image_url r = Some u -> {| slot := StatusMain; src := u |} ∈ images s)
  /\ (ingredients_image r = Some u -> {| slot := StatusIngredients; src := u |} ∈ images s)
  /\ (forall i urls, step_image_urls r = Some urls -> (i < 6)%nat -> urls !! i = Some u ->
        {| slot := StatusStep i; src := u |} ∈ images s).
Proof.
  intros Sel T. unfold images. rewrite Sel. split; [|split].
  - intros E. rewrite !elem_of_app. right. left.
    unfold one. rewrite E. cbn. rewrite T. apply list_elem_of_here.
  - intros E. rewrite !elem_of_app. right. right. left.
    unfold one. rewrite E. cbn. rewrite T. apply list_elem_of_here.
  - intros i urls E I L. rewrite !elem_of_app. right. right. right.
    rewrite E. change (default [] (Some urls)) with urls.
    apply list_elem_of_lookup. exists i.
    rewrite list_lookup_imap, lookup_take_lt by exact I. now rewrite L.
Qed.

End ImageProperties.


(** * Failures *)

Module FailureProperties.

Module DM := DataManager.
Module SG := SpecificGeneration.
Local Open Scope list_scope.

Lemma dm_settle_resumes (w : DM.World) (rid : nat) (k : DM.Continuation)
    (r : DM.Settlement) (rest : DM.Action) :
  DM.awaiting w !! rid = Some k -> DM.resume k r = Some rest ->
  DM.page (DM.ui (rest (DM.settle rid w))) = DM.page (DM.ui w) ->
  DM.filter (DM.ui (rest (DM.settle rid w))) = DM.filter (DM.ui w) ->
  DM.step w (DM.Settle rid r) = rest (DM.settle rid w).
Proof.
  intros A R P F. unfold DM.step, DM.dispatch. cbn [DM.available DM.handler].
  rewrite A, R. cbv zeta. unfold andThen.
  now rewrite (DataManagerProperties.deps_same _ _ (eq_sym P) (eq_sym F)).
Qed.




End FailureProperties.


(** * Further properties of the recipe editor *)

Module EditorProperties.

Import DataManager Editor.
Local Open Scope list_scope.

Lemma editSnapshot_dom (r : Recipe) : dom (editSnapshot r) = basicKeys.
Proof.
  unfold editSnapshot, basicKeys. rewrite !dom_insert_L, dom_empty_L. set_solver.
Qed.

Lemma consistent_frame (s s' : State) :
  isEditing s' = isEditing s -> editedFields s' = editedFields s ->
  selectedRecipe s' = selectedRecipe s ->
  consistent s -> consistent s'.
Proof.
  intros E F S [I1 I2 I3]. split; rewrite ?E, ?F, ?S; assumption.
Qed.

Lemma consistent_overlay (s : State) (key : string) (v : JsValue) (w : World) :
  is_Some (editing s) -> ui w = s -> consistent s ->
  consistent (ui (overlay s key v w)).
Proof.
  intros [r Ed] <- [I1 I2 I3]. apply DataManagerProperties.editing_Some in Ed as [Ed Sel].
  split; cbn; intros E.
  - congruence.
  - now rewrite Sel.
  - rewrite dom_insert_L. intros key' In. apply elem_of_union. right. now apply I3.
Qed.

Lemma consistent_resume (w : World) (rid : nat) (k : Continuation) (r : Settlement)
    (rest : Action) :
  resume k r = Some rest -> consistent (ui w) -> consistent (ui (rest (settle rid w))).
Proof.
  intros R Inv.
  destruct k, r as [[found|stats|]|e]; cbn in R; try discriminate;
    injection R as <-; unfold andThen;
    try (now apply (consistent_frame (ui w)));
    split; cbn; try discriminate; reflexivity.
Qed.

Lemma consistent_dispatch (w : World) (ev : Event) :
  consistent (ui w) -> consistent (ui (dispatch w ev)).
Proof.
  intros Inv. unfold dispatch. destruct (available (ui w) ev) eqn:A; [|exact Inv].
  destruct ev; cbn [handler available] in *;
    try (apply bool_decide_eq_true in A);
    try (now apply consistent_overlay);
    unfold handleSearch, clearSearch, handleSave, skip, andThen;
    repeat case_match; try exact Inv;
    try (now apply (consistent_frame (ui w)));
    try (apply consistent_overlay; [|reflexivity|exact Inv];
         unfold editing in *; repeat case_match; try discriminate; eauto).
  - (* a click on a recipe of the list *)
    destruct Inv as [I1 I2 I3]. split; cbn; eauto.
  - (* Edit *)
    split; cbn; intros E; [discriminate | eauto |].
    now rewrite editSnapshot_dom.
  - (* Cancel *)
    split; cbn; intros E; try discriminate. reflexivity.
  - (* Settle *)
    eapply consistent_resume; eassumption.
Qed.

Lemma consistent_step (w : World) (ev : Event) :
  consistent (ui w) -> consistent (ui (step w ev)).
Proof.
  intros Inv. unfold step. cbv zeta. apply (consistent_dispatch w ev) in Inv.
  destruct (depsChanged _ _); [|exact Inv].
  now apply (consistent_frame (ui (dispatch w ev))).
Qed.

Lemma consistent_run (evs : list Event) (w : World) :
  consistent (ui w) -> consistent (ui (run w evs)).
Proof.
  revert w. induction evs as [|ev evs IH]; intros w Inv; [exact Inv|].
  cbn. apply IH, consistent_step, Inv.
Qed.

Lemma consistent_mounted : consistent (ui mounted).
Proof.
  split; cbn; intros E; try discriminate. reflexivity.
Qed.

(** X1. In every state the data manager reaches from its mount, the
    editing flag, the overlay and the selection go together: outside edit
    mode the overlay is empty; in edit mode a recipe is selected and the
    overlay holds at least the nine basic keys.  Hence the Save button,
    wherever it is rendered, issues exactly one update request when
    clicked: the empty-overlay guard of [handleSave] is never taken
    through the button. *)
Theorem editor_state_consistent (evs : list Event) :
  let w := run mounted evs in
  (isEditing (ui w) = false -> editedFields (ui w) = ∅)
  /\ (isEditing (ui w) = true ->
      basicKeys ⊆ dom (editedFields (ui w))
      /\ exists r,
           selectedRecipe (ui w) = Some r
           /\ available (ui w) ClickSave = true
           /\ added w ClickSave = [UpdateRecipe (id r) (editedFields (ui w))]).
Proof.
  intros w. pose proof (consistent_run evs mounted consistent_mounted) as [I1 I2 I3].
  fold w in I1, I2, I3. split; [exact I1|]. intros E.
  split; [now apply I3|]. destruct (I2 E) as [r Sel]. exists r.
  assert (Ed : editing (ui w) = Some r) by (apply DataManagerProperties.editing_Some; now split).
  split; [exact Sel|]. split.
  - cbn [available]. rewrite Ed. now apply bool_decide_eq_true_2.
  - apply DataManagerProperties.added_app.
    rewrite (DataManagerProperties.save_issues_update w r Ed); [reflexivity|].
    intros Empty. specialize (I3 E "name"). rewrite Empty, dom_empty_L in I3.
    apply (not_elem_of_empty (C:=gset string) "name"), I3.
    unfold basicKeys. rewrite !elem_of_union, elem_of_singleton. tauto.
Qed.

(** ** Edit, change, cancel *)

Lemma form_edit_step (w : World) (ev : Event) :
  isFormEdit ev = true ->
  step w ev = w \/ exists m, step w ev = setEditedFields m w.
Proof.
  intros F. unfold step, dispatch. destruct (available (ui w) ev); cbv zeta;
    [|left; now rewrite DataManagerProperties.deps_unchanged].
  destruct ev; try discriminate; cbn [handler]; unfold overlay, skip;
    repeat case_match;
    first [ match goal with
            | H : depsChanged _ _ = true |- _ =>
                rewrite (DataManagerProperties.deps_same _ _) in H by reflexivity;
                discriminate
            end
          | left; reflexivity
          | right; eexists; reflexivity ].
Qed.

Lemma form_edits_run (edits : list Event) (w : World) (m : gmap string JsValue) :
  forallb isFormEdit edits = true ->
  exists m', run (setEditedFields m w) edits = setEditedFields m' w.
Proof.
  revert m. induction edits as [|ev edits IH]; intros m F; [now exists m|].
  cbn in F. apply andb_true_iff in F as [Fev F]. cbn [run fold_left].
  destruct (form_edit_step (setEditedFields m w) ev Fev) as [-> | [m1 ->]].
  - now apply IH.
  - apply (IH m1 F).
Qed.

(** X2. Cancel discards an edit session.  From a state outside edit mode
    with a recipe selected: press Edit, make any number of changes in the
    edit form, press Cancel; the component is exactly where it started (all
    state cells, pending requests and the effect log: nothing was sent). *)
Theorem cancel_discards_edits (w : World) (r : Recipe) (edits : list Event) :
  selectedRecipe (ui w) = Some r ->
  isEditing (ui w) = false ->
  editedFields (ui w) = ∅ ->
  forallb isFormEdit edits = true ->
  run w (ClickEdit :: edits ++ [ClickCancel]) = w.
Proof.
  intros Sel Ed Ov F.
  assert (Edit : step w ClickEdit
                 = setEditedFields (editSnapshot r) (setIsEditing true w)).
  { unfold step, dispatch. cbn [available handler]. rewrite Sel, Ed.
    rewrite bool_decide_eq_true_2 by eauto. cbn [andb negb]. cbv zeta.
    now rewrite (DataManagerProperties.deps_same _ _) by reflexivity. }
  cbn [run fold_left]. rewrite Edit. fold (run (setEditedFields (editSnapshot r)
                                                 (setIsEditing true w))
                                               (edits ++ [ClickCancel])).
  unfold run. rewrite fold_left_app. fold (run (setEditedFields (editSnapshot r)
                                                  (setIsEditing true w)) edits).
  destruct (form_edits_run edits (setIsEditing true w) (editSnapshot r) F) as [m' ->].
  cbn [fold_left]. unfold step, dispatch. cbn [available handler].
  assert (A : bool_decide (is_Some (editing (ui (setEditedFields m' (setIsEditing true w)))))
              = true).
  { apply bool_decide_eq_true_2. unfold editing. cbn. rewrite Sel. eauto. }
  rewrite A. cbv zeta. rewrite (DataManagerProperties.deps_same _ _) by reflexivity.
  destruct w as [s aw nr ef], s. cbn in *. subst. reflexivity.
Qed.

Lemma cancel_discards_edits_witness :
  run (step Samples.editingDal ClickCancel)
      (ClickEdit :: [ChangeText FName "Dal Fry"; ClickAddIngredient;
                     ChangeNumber FServings 6%float] ++ [ClickCancel])
  = step Samples.editingDal ClickCancel.
Proof.
  apply (cancel_discards_edits (step Samples.editingDal ClickCancel) Samples.dal);
    vm_compute; reflexivity.
Defined.

(** X3. A form control writes its key and nothing else.  While a recipe
    is being edited, after a change of a text field the form shows the
    typed text under that key (the empty string included: it does not fall
    back to the recipe's value), every other key of the overlay is as it
    was, the selected recipe itself is untouched and nothing is sent; the
    same holds for the number fields. *)
Theorem field_change_writes_one_key (w : World) (r : Recipe) :
  editing (ui w) = Some r ->
  (forall f text,
      let w' := step w (ChangeText f text) in
      shownValue (ui w') r (text_key f) = JString text
      /\ (forall key, key <> text_key f ->
            editedFields (ui w') !! key = editedFields (ui w) !! key)
      /\ selectedRecipe (ui w') = Some r
      /\ added w (ChangeText f text) = [])
  /\ (forall f x,
        let w' := step w (ChangeNumber f x) in
        shownValue (ui w') r (number_key f) = JNumber x
        /\ (forall key, key <> number_key f ->
              editedFields (ui w') !! key = editedFields (ui w) !! key)
        /\ selectedRecipe (ui w') = Some r
        /\ added w (ChangeNumber f x) = []).
Proof.
  intros Ed.
  assert (A : bool_decide (is_Some (editing (ui w))) = true)
    by (apply bool_decide_eq_true_2; rewrite Ed; eauto).
  apply DataManagerProperties.editing_Some in Ed as [_ Sel].
  split.
  - intros f text w'.
    assert (E : w' = overlay (ui w) (text_key f) (JString text) w).
    { subst w'. unfold step, dispatch. cbn [available handler]. rewrite A. cbv zeta.
      now rewrite (DataManagerProperties.deps_same _ _) by reflexivity. }
    split; [|split; [|split]].
    + rewrite E. unfold shownValue. cbn. now rewrite lookup_insert_eq.
    + intros key NE. rewrite E. cbn. now rewrite lookup_insert_ne.
    + now rewrite E.
    + apply DataManagerProperties.added_app. fold w'. rewrite E. cbn.
      now rewrite app_nil_r.
  - intros f x w'.
    assert (E : w' = overlay (ui w) (number_key f) (JNumber x) w).
    { subst w'. unfold step, dispatch. cbn [available handler]. rewrite A. cbv zeta.
      now rewrite (DataManagerProperties.deps_same _ _) by reflexivity. }
    split; [|split; [|split]].
    + rewrite E. unfold shownValue. cbn. now rewrite lookup_insert_eq.
    + intros key NE. rewrite E. cbn. now rewrite lookup_insert_ne.
    + now rewrite E.
    + apply DataManagerProperties.added_app. fold w'. rewrite E. cbn.
      now rewrite app_nil_r.
Qed.

Lemma field_change_writes_one_key_witness :
  shownValue (ui (step Samples.editingDal (ChangeText FImageUrl ""))) Samples.dal
             (text_key FImageUrl)
  = JString "".
Proof.
  destruct (field_change_writes_one_key Samples.editingDal Samples.dal) as (Text & _).
  - vm_compute. reflexivity.
  - apply (Text FImageUrl "").
Defined.

(** X4. Selecting another recipe during an edit keeps the edit.  A click
    on a recipe of the list while the form is open changes the selection
    only: the editing flag and the overlay stay, and a following Save sends
    the overlay, filled from the recipe edited before, as an update of the
    recipe selected now. *)
Theorem selecting_during_edit_keeps_overlay (w : World) (i : nat) (clicked : Recipe) :
  isEditing (ui w) = true ->
  editedFields (ui w) <> ∅ ->
  loading (ui w) = false ->
  displayed (ui w) !! i = Some clicked ->
  let w' := step w (ClickRecipe i) in
  selectedRecipe (ui w') = Some clicked
  /\ isEditing (ui w') = true
  /\ editedFields (ui w') = editedFields (ui w)
  /\ added w' ClickSave = [UpdateRecipe (id clicked) (editedFields (ui w))].
Proof.
  intros Ed NE L D w'.
  assert (E : w' = setSelectedRecipe (Some clicked) w).
  { subst w'. unfold step, dispatch. cbn [available handler]. rewrite L, D.
    rewrite bool_decide_eq_true_2 by eauto. cbn [andb negb]. cbv zeta.
    now rewrite (DataManagerProperties.deps_same _ _) by reflexivity. }
  split; [now rewrite E|]. split; [now rewrite E|]. split; [now rewrite E|].
  apply DataManagerProperties.added_app.
  rewrite (DataManagerProperties.save_issues_update w' clicked).
  - rewrite E. reflexivity.
  - rewrite E. apply DataManagerProperties.editing_Some. now split.
  - now rewrite E.
Qed.

Lemma selecting_during_edit_keeps_overlay_witness :
  let w := Samples.renamedAmongTwo in
  let w' := step w (ClickRecipe 1) in
  selectedRecipe (ui w') = Some Samples.rasam
  /\ isEditing (ui w') = true
  /\ editedFields (ui w') = editedFields (ui w)
  /\ added w' ClickSave = [UpdateRecipe (id Samples.rasam) (editedFields (ui w))].
Proof.
  apply (selecting_during_edit_keeps_overlay Samples.renamedAmongTwo 1 Samples.rasam);
    try (vm_compute; reflexivity).
  intros E. apply (f_equal (fun m => m !! "name")) in E. vm_compute in E. discriminate.
Defined.

End EditorProperties.


(** * Further properties of the details panel: rows and images *)

Module PanelProperties.

Import DataManager Editor Images.
Local Open Scope list_scope.

Lemma editing_available (w : World) (r : Recipe) :
  editing (ui w) = Some r -> bool_decide (is_Some (editing (ui w))) = true.
Proof.
  intros Ed. apply bool_decide_eq_true_2. rewrite Ed. eauto.
Qed.

(** A gesture on a row of the ingredient editor, when the row exists,
    writes the new list under [ingredients]. *)
Lemma ingredient_step (w : World) (r : Recipe) (ev : Event) (rows : list Ingredient) :
  editing (ui w) = Some r ->
  available (ui w) ev = true ->
  handler (ui w) ev = overlay (ui w) "ingredients" (JIngredients rows) ->
  step w ev = overlay (ui w) "ingredients" (JIngredients rows) w
  /\ currentIngredients (ui (step w ev)) r = rows.
Proof.
  intros Ed A H.
  assert (E : step w ev = overlay (ui w) "ingredients" (JIngredients rows) w).
  { unfold step, dispatch. rewrite A, H. cbv zeta.
    now rewrite (DataManagerProperties.deps_same _ _) by reflexivity. }
  split; [exact E|]. rewrite E. unfold currentIngredients. cbn.
  now rewrite lookup_insert_eq.
Qed.

Lemma row_available (w : World) (r : Recipe) (i : nat) (row : Ingredient) :
  editing (ui w) = Some r -> currentIngredients (ui w) r !! i = Some row ->
  bool_decide (is_Some (currentIngredients (ui w) r !! i)) = true.
Proof.
  intros _ L. apply bool_decide_eq_true_2. rewrite L. eauto.
Qed.

(** X5. The ingredient editor works on a copy.  While a recipe is being
    edited, with [rows] the ingredient list the form shows: Add appends a
    blank row; Delete on row [i] removes that row; a change of the name
    of row [i] sets both its [name] and [ingredient] to the text and
    keeps its quantity and unit, a change of the quantity sets the
    quantity alone, and in both cases the other rows and the number of
    rows stay; adding a row and deleting it again gives [rows] back.  The
    selected recipe itself is not changed by any of these. *)
Theorem ingredient_rows_follow_edits (w : World) (r : Recipe) :
  editing (ui w) = Some r ->
  let rows := currentIngredients (ui w) r in
  let shown ev := currentIngredients (ui (step w ev)) r in
  shown ClickAddIngredient = rows ++ [blankIngredient]
  /\ (forall i row, rows !! i = Some row ->
        shown (ClickDeleteIngredient i) = delete i rows
        /\ S (length (shown (ClickDeleteIngredient i))) = length rows)
  /\ (forall i row text, rows !! i = Some row ->
        shown (ChangeIngredientName i text) !! i
        = Some {| ing_name := Some text; ing_ingredient := Some text;
                  ing_quantity := ing_quantity row; ing_unit := ing_unit row |}
        /\ shown (ChangeIngredientQuantity i text) !! i
           = Some {| ing_name := ing_name row; ing_ingredient := ing_ingredient row;
                     ing_quantity := Some text; ing_unit := ing_unit row |}
        /\ (forall j, j <> i ->
              shown (ChangeIngredientName i text) !! j = rows !! j
              /\ shown (ChangeIngredientQuantity i text) !! j = rows !! j)
        /\ length (shown (ChangeIngredientName i text)) = length rows
        /\ length (shown (ChangeIngredientQuantity i text)) = length rows)
  /\ currentIngredients
       (ui (run w [ClickAddIngredient; ClickDeleteIngredient (length rows)])) r = rows
  /\ (forall ev, isFormEdit ev = true -> selectedRecipe (ui (step w ev)) = Some r).
Proof.
  intros Ed rows shown. pose proof (editing_available w r Ed) as A.
  pose proof Ed as Ed'. apply DataManagerProperties.editing_Some in Ed' as [IsEd Sel].
  assert (Add : step w ClickAddIngredient
                = overlay (ui w) "ingredients" (JIngredients (rows ++ [blankIngredient])) w
                /\ shown ClickAddIngredient = rows ++ [blankIngredient]).
  { apply ingredient_step; [exact Ed | exact A |]. cbn [handler]. now rewrite Sel. }
  split; [apply Add|]. split; [|split; [|split]].
  - intros i row L.
    assert (D : shown (ClickDeleteIngredient i) = delete i rows).
    { apply ingredient_step; [exact Ed | | ].
      - cbn [available]. rewrite Ed. now apply (row_available w r i row).
      - cbn [handler]. now rewrite Sel. }
    split; [exact D|]. rewrite D, length_delete by eauto.
    apply lookup_lt_Some in L. lia.
  - intros i row text L.
    assert (N : shown (ChangeIngredientName i text) = alter (renameIngredient text) i rows).
    { apply ingredient_step; [exact Ed | | ].
      - cbn [available]. rewrite Ed. now apply (row_available w r i row).
      - cbn [handler]. now rewrite Sel. }
    assert (Q : shown (ChangeIngredientQuantity i text)
                = alter (requantifyIngredient text) i rows).
    { apply ingredient_step; [exact Ed | | ].
      - cbn [available]. rewrite Ed. now apply (row_available w r i row).
      - cbn [handler]. now rewrite Sel. }
    rewrite N, Q, !length_alter.
    split; [rewrite list_lookup_alter, decide_True by reflexivity; now rewrite L|].
    split; [rewrite list_lookup_alter, decide_True by reflexivity; now rewrite L|].
    split; [|split; reflexivity].
    intros j NE. split; apply list_lookup_alter_ne; congruence.
  - destruct Add as [E _]. cbn [run fold_left]. rewrite E.
    set (w1 := overlay (ui w) "ingredients" (JIngredients (rows ++ [blankIngredient])) w).
    assert (Ed1 : editing (ui w1) = Some r)
      by (apply DataManagerProperties.editing_Some; now split).
    assert (C1 : currentIngredients (ui w1) r = rows ++ [blankIngredient]).
    { unfold currentIngredients, w1. cbn. now rewrite lookup_insert_eq. }
    destruct (ingredient_step w1 r (ClickDeleteIngredient (length rows))
                (delete (length rows) (currentIngredients (ui w1) r)) Ed1) as [_ D].
    + cbn [available]. rewrite Ed1. apply bool_decide_eq_true_2.
      rewrite C1, lookup_app_r, Nat.sub_diag by lia. cbn. eauto.
    + cbn [handler]. assert (S1 : selectedRecipe (ui w1) = Some r) by exact Sel.
      now rewrite S1.
    + rewrite D, C1. rewrite (delete_middle rows [] blankIngredient). apply app_nil_r.
  - intros ev F. destruct (EditorProperties.form_edit_step w ev F) as [-> | [m ->]];
      exact Sel.
Qed.

Lemma ingredient_rows_follow_edits_witness :
  currentIngredients (ui (step Samples.editingDal ClickAddIngredient)) Samples.dal
  = currentIngredients (ui Samples.editingDal) Samples.dal ++ [blankIngredient].
Proof.
  destruct (ingredient_rows_follow_edits Samples.editingDal Samples.dal) as (Add & _).
  - vm_compute. reflexivity.
  - exact Add.
Defined.

(** ** Which images the panel shows *)

Lemma elem_of_one (img : Img) (place : Slot) (v : JsValue) :
  img ∈ one place v <-> exists u, url v = Some u /\ img = {| slot := place; src := u |}.
Proof.
  unfold one. destruct (url v) as [u|].
  - rewrite list_elem_of_singleton. split; [eauto|]. now intros (u' & [= <-] & ->).
  - rewrite elem_of_nil. split; [tauto|]. now intros (u' & [=] & _).
Qed.

Lemma url_string (u : string) : url (JString u) = if Js.truthy u then Some u else None.
Proof. reflexivity. Qed.

Lemma elem_of_previews (img : Img) (urls : list string) :
  img ∈ mjoin (imap (fun i u => one (PreviewStep i) (JString u)) urls)
  <-> exists i, urls !! i = Some (src img) /\ Js.truthy (src img) = true
                /\ slot img = PreviewStep i.
Proof.
  rewrite list_elem_of_join. split.
  - intros (l & In & L). apply elem_of_lookup_imap in L as (i & u & -> & Lu).
    apply elem_of_one in In as (u' & U & ->). rewrite url_string in U.
    destruct (Js.truthy u) eqn:T; [|discriminate]. injection U as <-.
    exists i. cbn. now rewrite T.
  - intros (i & Lu & T & Sl). exists (one (PreviewStep i) (JString (src img))). split.
    + apply elem_of_one. exists (src img). rewrite url_string, T. split; [reflexivity|].
      destruct img as [sl sr]. cbn in *. now subst sl.
    + apply elem_of_lookup_imap. exists i, (src img). now split.
Qed.

Lemma elem_of_thumbnails (img : Img) (make : nat -> Slot) (urls : list string) :
  img ∈ imap (fun i u => {| slot := make i; src := u |}) urls
  <-> exists i, urls !! i = Some (src img) /\ slot img = make i.
Proof.
  rewrite elem_of_lookup_imap. split.
  - intros (i & u & -> & L). now exists i.
  - intros (i & L & Sl). exists i, (src img). split; [|exact L].
    destruct img as [sl sr]. cbn in *. now subst sl.
Qed.

(** The images of the panel in edit mode, slot by slot. *)
Lemma images_editing (s : State) (r : Recipe) (img : Img) :
  editing s = Some r ->
  img ∈ images s <->
    (url (shownValue s r "image_url") = Some (src img) /\ slot img = PreviewMain)
    \/ (url (shownValue s r "ingredients_image") = Some (src img)
        /\ slot img = PreviewIngredients)
    \/ (exists i, currentStepImageUrls s r !! i = Some (src img)
                  /\ Js.truthy (src img) = true /\ slot img = PreviewStep i)
    \/ (url (of_string (image_url r)) = Some (src img) /\ slot img = StatusMain)
    \/ (url (of_string (ingredients_image r)) = Some (src img)
        /\ slot img = StatusIngredients)
    \/ (exists i, take 6 (default [] (step_image_urls r)) !! i = Some (src img)
                  /\ slot img = StatusStep i).
Proof.
  intros Ed. apply DataManagerProperties.editing_Some in Ed as [IsEd Sel].
  unfold images. rewrite Sel, IsEd.
  rewrite !elem_of_app, !elem_of_one, elem_of_previews, elem_of_thumbnails.
  assert (One : forall place v,
             (exists u, url v = Some u /\ img = {| slot := place; src := u |})
             <-> url v = Some (src img) /\ slot img = place).
  { intros place v. split.
    - now intros (u & U & ->).
    - intros (U & Sl). exists (src img). split; [exact U|].
      destruct img as [sl sr]. cbn in *. now subst sl. }
  rewrite !One. tauto.
Qed.

(** X6. Previews follow the overlay, thumbnails follow the record.  While
    a recipe is being edited, a change of step image URL [i] (an existing
    row) makes the form list the typed text at row [i] and leaves the
    other rows; the preview next to row [i] is shown exactly when the text
    is non-empty, with the text as source; and the status thumbnails of
    the step images are the same before and after, since they are taken
    from the selected recipe. *)
Theorem step_url_change_updates_preview (w : World) (r : Recipe) (i : nat) (text : string) :
  editing (ui w) = Some r ->
  is_Some (currentStepImageUrls (ui w) r !! i) ->
  let w' := step w (ChangeStepImageUrl i text) in
  currentStepImageUrls (ui w') r = <[i := text]> (currentStepImageUrls (ui w) r)
  /\ (forall u, {| slot := PreviewStep i; src := u |} ∈ images (ui w')
                <-> u = text /\ Js.truthy text = true)
  /\ (forall j u, {| slot := StatusStep j; src := u |} ∈ images (ui w')
                  <-> {| slot := StatusStep j; src := u |} ∈ images (ui w)).
Proof.
  intros Ed Row w'. pose proof Ed as Ed0.
  apply DataManagerProperties.editing_Some in Ed0 as [IsEd Sel].
  set (rows := currentStepImageUrls (ui w) r) in *.
  assert (E : w' = overlay (ui w) "step_image_urls" (JStrings (<[i := text]> rows)) w).
  { subst w'. unfold step, dispatch. cbn [available handler]. rewrite Ed, Sel.
    rewrite bool_decide_eq_true_2 by exact Row. cbv zeta.
    now rewrite (DataManagerProperties.deps_same _ _) by reflexivity. }
  assert (Ed' : editing (ui w') = Some r)
    by (rewrite E; apply DataManagerProperties.editing_Some; now split).
  assert (C : currentStepImageUrls (ui w') r = <[i := text]> rows).
  { rewrite E. unfold currentStepImageUrls. cbn. now rewrite lookup_insert_eq. }
  split; [exact C|]. split.
  - intros u. rewrite (images_editing (ui w') r _ Ed'). cbn [slot src]. rewrite C. split.
    + intros [[_ [=]]|[[_ [=]]|[(j & L & T & [= <-])|[[_ [=]]|[[_ [=]]|(j & _ & [=])]]]]].
      destruct Row as [old Row]. apply lookup_lt_Some in Row.
      rewrite list_lookup_insert_eq in L by exact Row. injection L as <-. now split.
    + intros [-> T]. right. right. left. exists i.
      destruct Row as [old Row]. apply lookup_lt_Some in Row.
      now rewrite list_lookup_insert_eq by exact Row.
  - intros j u. rewrite (images_editing (ui w') r _ Ed'), (images_editing (ui w) r _ Ed).
    cbn [slot src]. split;
      (intros [[_ [=]]|[[_ [=]]|[(k & _ & _ & [=])|[[_ [=]]|[[_ [=]]|H]]]]];
       do 5 right; exact H).
Qed.

Lemma step_url_change_updates_preview_witness :
  let w' := step Samples.editingDal (ChangeStepImageUrl 1 "https://img.example/dal-2.jpg") in
  currentStepImageUrls (ui w') Samples.dal
  = <[1%nat := "https://img.example/dal-2.jpg"]>
      (currentStepImageUrls (ui Samples.editingDal) Samples.dal)
  /\ (forall u, {| slot := PreviewStep 1; src := u |} ∈ images (ui w')
                <-> u = "https://img.example/dal-2.jpg"
                    /\ Js.truthy "https://img.example/dal-2.jpg" = true)
  /\ (forall j u, {| slot := StatusStep j; src := u |} ∈ images (ui w')
                  <-> {| slot := StatusStep j; src := u |} ∈ images (ui Samples.editingDal)).
Proof.
  apply (step_url_change_updates_preview Samples.editingDal Samples.dal 1
           "https://img.example/dal-2.jpg"); vm_compute; eauto.
Defined.

(** X7. Remove clears the URL in the overlay, not in the record.  While a
    recipe is being edited and the Remove button of the main image is
    rendered, a click on it writes the empty string under [image_url]: the
    preview and the Remove button are gone from the next render, a
    following Save would send the empty URL, and the thumbnail of the
    image-status section still shows the image the recipe has. *)
Theorem remove_image_clears_overlay_url (w : World) (r : Recipe) :
  editing (ui w) = Some r ->
  available (ui w) (ClickRemoveImage FImageUrl) = true ->
  let w' := step w (ClickRemoveImage FImageUrl) in
  editedFields (ui w') !! "image_url" = Some (JString "")
  /\ (forall img, img ∈ images (ui w') -> slot img <> PreviewMain)
  /\ available (ui w') (ClickRemoveImage FImageUrl) = false
  /\ (forall u, {| slot := StatusMain; src := u |} ∈ images (ui w')
                <-> image_url r = Some u /\ Js.truthy u = true)
  /\ added w' ClickSave = [UpdateRecipe (id r) (editedFields (ui w'))].
Proof.
  intros Ed A w'. pose proof Ed as Ed0.
  apply DataManagerProperties.editing_Some in Ed0 as [IsEd Sel].
  assert (E : w' = overlay (ui w) "image_url" (JString "") w).
  { subst w'. unfold step, dispatch. rewrite A. cbn [handler text_key]. cbv zeta.
    now rewrite (DataManagerProperties.deps_same _ _) by reflexivity. }
  assert (Ed' : editing (ui w') = Some r)
    by (rewrite E; apply DataManagerProperties.editing_Some; now split).
  assert (L : editedFields (ui w') !! "image_url" = Some (JString ""))
    by (rewrite E; cbn; apply lookup_insert_eq).
  assert (Shown : shownValue (ui w') r "image_url" = JString "")
    by (unfold shownValue; now rewrite L).
  split; [exact L|]. split; [|split; [|split]].
  - intros img In Sl. apply (images_editing (ui w') r img Ed') in In.
    rewrite Sl, Shown in In.
    destruct In as [[[=] _]|[[_ [=]]|[(j & _ & _ & [=])|[[_ [=]]|[[_ [=]]|(j & _ & [=])]]]]].
  - cbn [available text_key]. now rewrite Ed', Shown.
  - intros u. rewrite (images_editing (ui w') r _ Ed'). cbn [slot src]. split.
    + intros [[_ [=]]|[[_ [=]]|[(j & _ & _ & [=])|[[U _]|[[_ [=]]|(j & _ & [=])]]]]].
      destruct (image_url r) as [v|]; [|discriminate]. cbn in U.
      destruct (Js.truthy v) eqn:T; [|discriminate]. injection U as ->. now split.
    + intros [U T]. do 3 right. left. rewrite U. cbn. now rewrite T.
  - apply DataManagerProperties.added_app.
    rewrite (DataManagerProperties.save_issues_update w' r Ed'); [reflexivity|].
    intros Empty. rewrite Empty, lookup_empty in L. discriminate.
Qed.

Lemma remove_image_clears_overlay_url_witness :
  let w' := step Samples.editingDal (ClickRemoveImage FImageUrl) in
  editedFields (ui w') !! "image_url" = Some (JString "")
  /\ (forall img, img ∈ images (ui w') -> slot img <> PreviewMain)
  /\ available (ui w') (ClickRemoveImage FImageUrl) = false
  /\ (forall u, {| slot := StatusMain; src := u |} ∈ images (ui w')
                <-> image_url Samples.dal = Some u /\ Js.truthy u = true)
  /\ added w' ClickSave = [UpdateRecipe (id Samples.dal) (editedFields (ui w'))].
Proof.
  apply (remove_image_clears_overlay_url Samples.editingDal Samples.dal);
    vm_compute; reflexivity.
Defined.

(** ** How many thumbnails *)

Lemma filter_none {A : Type} (f : A -> bool) (l : list A) :
  (forall x, x ∈ l -> f x = false) -> List.filter f l = [].
Proof.
  induction l as [|a l IH]; intros H; [reflexivity|]. cbn.
  rewrite (H a) by apply list_elem_of_here.
  apply IH. intros x In. apply H. now apply list_elem_of_further.
Qed.

Lemma filter_all {A : Type} (f : A -> bool) (l : list A) :
  (forall x, x ∈ l -> f x = true) -> List.filter f l = l.
Proof.
  induction l as [|a l IH]; intros H; [reflexivity|]. cbn.
  rewrite (H a) by apply list_elem_of_here. f_equal.
  apply IH. intros x In. apply H. now apply list_elem_of_further.
Qed.

Lemma no_status_step_in_one (place : Slot) (v : JsValue) :
  (forall i, place <> StatusStep i) -> List.filter isStatusStep (one place v) = [].
Proof.
  intros NE. apply filter_none. intros img In.
  apply elem_of_one in In as (u & _ & ->). unfold isStatusStep. cbn.
  destruct place; try reflexivity. now destruct (NE index).
Qed.

(** X8. The image-status section shows at most six step thumbnails and
    counts the rest.  With a recipe selected, in edit mode or not, the
    number of status thumbnails of step images is the smaller of 6 and the
    number of step image URLs of the recipe; the line "+N more images" is
    there exactly when the recipe has more than six, and then thumbnails
    and [N] add up to the number of URLs. *)
Theorem status_thumbnails_capped (s : State) (r : Recipe) :
  selectedRecipe s = Some r ->
  let urls := default [] (step_image_urls r) in
  let thumbnails := List.filter isStatusStep (images s) in
  length thumbnails = Nat.min 6 (length urls)
  /\ (forall n, moreStepImages r = Some n ->
        (6 < length urls)%nat /\ (length thumbnails + n = length urls)%nat)
  /\ (moreStepImages r = None -> length thumbnails = length urls).
Proof.
  intros Sel urls thumbnails.
  assert (Count : length thumbnails = Nat.min 6 (length urls)).
  { unfold thumbnails, images. rewrite Sel.
    assert (Tail : List.filter isStatusStep
                     (imap (fun i u => {| slot := StatusStep i; src := u |}) (take 6 urls))
                   = imap (fun i u => {| slot := StatusStep i; src := u |}) (take 6 urls)).
    { apply filter_all. intros img In.
      apply elem_of_thumbnails in In as (i & _ & Sl). unfold isStatusStep. now rewrite Sl. }
    rewrite !List.filter_app. fold urls. rewrite Tail, length_app, length_app, length_app.
    rewrite !no_status_step_in_one by discriminate. rewrite length_imap, length_take.
    destruct (isEditing s).
    - rewrite !List.filter_app, !no_status_step_in_one by discriminate.
      rewrite (filter_none isStatusStep (mjoin _)); [reflexivity|].
      intros img In. apply elem_of_previews in In as (i & _ & _ & Sl).
      unfold isStatusStep. now rewrite Sl.
    - rewrite !List.filter_app, !no_status_step_in_one by discriminate.
      rewrite (filter_none isStatusStep (imap _ _)); [reflexivity|].
      intros img In. apply elem_of_thumbnails in In as (i & _ & Sl).
      unfold isStatusStep. now rewrite Sl. }
  split; [exact Count|]. unfold moreStepImages, urls in *.
  destruct (step_image_urls r) as [l|]; cbn [default] in *; unfold Datatypes.id in *.
  - destruct (6 <? length l)%nat eqn:More.
    + apply Nat.ltb_lt in More. split; [|discriminate].
      intros n [= <-]. split; [exact More | rewrite Count; lia].
    + apply Nat.ltb_ge in More. split; [discriminate|]. intros _. rewrite Count. lia.
  - split; [discriminate|]. intros _. rewrite Count. reflexivity.
Qed.

Lemma status_thumbnails_capped_witness :
  let s := ui (step Samples.renamedAmongTwo (ClickRecipe 1)) in
  let urls := default [] (step_image_urls Samples.rasam) in
  let thumbnails := List.filter isStatusStep (images s) in
  length thumbnails = Nat.min 6 (length urls)
  /\ (forall n, moreStepImages Samples.rasam = Some n ->
        (6 < length urls)%nat /\ (length thumbnails + n = length urls)%nat)
  /\ (moreStepImages Samples.rasam = None -> length thumbnails = length urls).
Proof.
  apply (status_thumbnails_capped (ui (step Samples.renamedAmongTwo (ClickRecipe 1)))
                                  Samples.rasam).
  vm_compute. reflexivity.
Defined.

End PanelProperties.


(** * Further properties of the recipe list *)

Module ListProperties.

Import DataManager Editor.
Local Open Scope list_scope.

Lemma deps_changed_true (before after : State) :
  depsChanged before after = true <->
  page before <> page after \/ filter before <> filter after.
Proof.
  unfold depsChanged. rewrite negb_true_iff, bool_decide_eq_false. split.
  - intros N. destruct (decide (page before = page after)) as [P|P]; [|now left].
    right. intros F. apply N. now split.
  - intros [N|N] [P F]; contradiction.
Qed.

Lemma resume_keeps_deps (k : Continuation) (r : Settlement) (rest : Action) (w : World) :
  resume k r = Some rest ->
  page (ui (rest w)) = page (ui w) /\ filter (ui (rest w)) = filter (ui w).
Proof.
  intros R. destruct k, r as [[found|stats|]|e]; cbn in R; try discriminate;
    injection R as <-; split; reflexivity.
Qed.

(** A handler that changes [page] or [filter] has no effect of its own. *)
Lemma dispatch_keeps_deps_or_silent (w : World) (ev : Event) :
  (page (ui (dispatch w ev)) = page (ui w) /\ filter (ui (dispatch w ev)) = filter (ui w))
  \/ effects (dispatch w ev) = effects w.
Proof.
  unfold dispatch. destruct (available (ui w) ev); [|now left].
  destruct ev; cbn [handler];
    unfold handleSearch, clearSearch, handleSave, overlay, skip, andThen;
    repeat case_match;
    first [ left; split; reflexivity | right; reflexivity | idtac ].
  left. match goal with R : resume _ _ = Some ?rest |- _ =>
    apply (resume_keeps_deps _ _ rest (settle rid w) R) end.
Qed.

Lemma resume_effects (k : Continuation) (r : Settlement) (rest : Action) (w : World) :
  resume k r = Some rest ->
  exists new, effects (rest w) = effects w ++ new
    /\ (forall e, e ∈ new -> isListing e = true -> loading (ui (rest w)) = true)
    /\ (forall e, e ∈ new -> isReload e = true ->
          exists p f payload,
            k = AwaitUpdate p f /\ r = Fulfilled payload
            /\ e = ListRecipes (p * PAGE_SIZE) PAGE_SIZE (if Js.truthy f then Some f else None)).
Proof.
  intros R. destruct k, r as [[found|stats|]|e0]; cbn in R; try discriminate;
    injection R as <-; unfold andThen, loadRecipes, andThen; cbn;
    rewrite <- ?app_assoc; cbn;
    first [ (exists (@nil Effect)); rewrite app_nil_r; split; [reflexivity|];
            split; intros e In; now apply elem_of_nil in In
          | eexists; split; [reflexivity|]; split; intros e In T;
            repeat (apply elem_of_cons in In as [->|In]; [try discriminate T|]);
            try (now apply elem_of_nil in In); try reflexivity;
            try (do 3 eexists; repeat split; reflexivity) ].
Qed.

(** What a handler adds to the log when it leaves [page] and [filter]. *)
Lemma dispatch_effects (w : World) (ev : Event) :
  exists new, effects (dispatch w ev) = effects w ++ new
    /\ (forall e, e ∈ new -> isListing e = true -> loading (ui (dispatch w ev)) = true)
    /\ (forall e, e ∈ new -> isReload e = true ->
          exists rid p f payload,
            ev = Settle rid (Fulfilled payload)
            /\ awaiting w !! rid = Some (AwaitUpdate p f)
            /\ e = ListRecipes (p * PAGE_SIZE) PAGE_SIZE (if Js.truthy f then Some f else None)).
Proof.
  assert (Silent : exists new : list Effect, effects w = effects w ++ new
            /\ (forall e, e ∈ new -> isListing e = true -> loading (ui w) = true)
            /\ (forall e, e ∈ new -> isReload e = true ->
                  exists rid p f payload,
                    ev = Settle rid (Fulfilled payload)
                    /\ awaiting w !! rid = Some (AwaitUpdate p f)
                    /\ e = ListRecipes (p * PAGE_SIZE) PAGE_SIZE
                             (if Js.truthy f then Some f else None))).
  { exists []. rewrite app_nil_r. split; [reflexivity|].
    split; intros e In; now apply elem_of_nil in In. }
  unfold dispatch. destruct (available (ui w) ev); [|exact Silent].
  destruct ev; cbn [handler];
    unfold handleSearch, clearSearch, handleSave, overlay, skip, andThen;
    repeat case_match; try exact Silent;
    try (exists []; rewrite app_nil_r; split; [reflexivity|];
         split; intros e In; now apply elem_of_nil in In);
    try (eexists; split; [reflexivity|]; split; intros e In T;
         apply list_elem_of_singleton in In; subst e;
         first [discriminate T | reflexivity]).
  match goal with R : resume _ _ = Some ?rest, A : awaiting w !! rid = Some ?k |- _ =>
    destruct (resume_effects _ _ rest (settle rid w) R) as (new & E & L & Re)
  end.
  exists new. split; [exact E|]. split; [exact L|].
  intros e In T. destruct (Re e In T) as (p & f & payload & -> & -> & ->).
  exists rid, p, f, payload. now split.
Qed.

(** X9. The list is reloaded exactly when the page or the filter changes.
    An event that changes [page] or [filter] issues, through the effect,
    one list request for the new page (offset [page * 20], limit 20, the
    status filter unless it is "All Status") followed by one statistics
    request, and nothing else; an event that leaves both unchanged issues
    no list or statistics request, with one exception: the fulfilment of a
    pending update, which reloads the list for the page and filter that
    Save was clicked under. *)
Theorem reload_exactly_on_page_or_filter_change (w : World) (ev : Event) :
  let w' := step w ev in
  (page (ui w') <> page (ui w) \/ filter (ui w') <> filter (ui w) ->
   added w ev
   = [ConsoleLog "Loading recipes...";
      ListRecipes (page (ui w') * PAGE_SIZE) PAGE_SIZE
                  (if Js.truthy (filter (ui w')) then Some (filter (ui w')) else None);
      GetStatistics])
  /\ (page (ui w') = page (ui w) -> filter (ui w') = filter (ui w) ->
      forall e, e ∈ added w ev -> isReload e = true ->
        exists rid p f payload,
          ev = Settle rid (Fulfilled payload)
          /\ awaiting w !! rid = Some (AwaitUpdate p f)
          /\ e = ListRecipes (p * PAGE_SIZE) PAGE_SIZE
                   (if Js.truthy f then Some f else None)).
Proof.
  intros w'. subst w'. unfold added, step. cbv zeta.
  destruct (depsChanged (ui w) (ui (dispatch w ev))) eqn:D.
  - apply deps_changed_true in D. split.
    + intros _. destruct (dispatch_keeps_deps_or_silent w ev) as [[P F]|Silent].
      * destruct D as [N|N]; congruence.
      * unfold useEffect, loadRecipes, loadStatistics, andThen. cbn.
        rewrite Silent, <- !app_assoc. cbn. apply drop_app_length.
    + intros P F. cbn in P, F. destruct D as [N|N]; congruence.
  - split.
    + intros C. unfold depsChanged in D. apply negb_false_iff, bool_decide_eq_true in D.
      destruct D as [P F], C as [N|N]; congruence.
    + intros _ _ e In T. destruct (dispatch_effects w ev) as (new & E & _ & Re).
      rewrite E, drop_app_length in In. now apply Re.
Qed.

Lemma reload_exactly_on_page_or_filter_change_witness :
  added Samples.secondPendingPage ClickPrevious
  = [ConsoleLog "Loading recipes..."; ListRecipes (0 * PAGE_SIZE) PAGE_SIZE (Some "pending");
     GetStatistics].
Proof.
  destruct (reload_exactly_on_page_or_filter_change Samples.secondPendingPage ClickPrevious)
    as (Changed & _).
  apply Changed. left. vm_compute. discriminate.
Defined.

(** Choosing the filter that is already chosen, on the first page, issues
    nothing. *)
Lemma select_current_filter_is_silent :
  added Samples.editingDal (SelectFilter AllStatus) = [].
Proof. vm_compute. reflexivity. Qed.

(** X10. The loading flag follows the list and search requests, one by
    one.  An event that issues a list or a search request leaves
    [loading] set; the settlement of a list or search request, fulfilled
    or rejected, leaves it cleared (whatever other requests are still
    pending); and while it is set the list is replaced by the loading
    line, so a click on a recipe does nothing. *)
Theorem loading_follows_list_requests :
  (forall w ev e,
      e ∈ added w ev -> isListing e = true -> loading (ui (step w ev)) = true)
  /\ (forall w rid k r,
        awaiting w !! rid = Some k ->
        k = AwaitListRecipes \/ k = AwaitSearch ->
        (forall p, r = Fulfilled p -> exists found, p = RecipesPayload found) ->
        loading (ui (step w (Settle rid r))) = false)
  /\ (forall w i, loading (ui w) = true -> step w (ClickRecipe i) = w).
Proof.
  split; [|split].
  - intros w ev e. unfold added, step. cbv zeta.
    destruct (depsChanged (ui w) (ui (dispatch w ev))); [reflexivity|].
    intros In T. destruct (dispatch_effects w ev) as (new & E & L & _).
    rewrite E, drop_app_length in In. now apply (L e).
  - intros w rid k r A K Typed. unfold step, dispatch. cbn [available handler]. rewrite A.
    destruct r as [p|e].
    + destruct (Typed p eq_refl) as [found ->].
      destruct K as [-> | ->]; cbn [resume]; cbv zeta;
        rewrite (DataManagerProperties.deps_same _ _) by reflexivity; reflexivity.
    + destruct K as [-> | ->]; cbn [resume]; cbv zeta;
        rewrite (DataManagerProperties.deps_same _ _) by reflexivity; reflexivity.
  - intros w i L. apply DataManagerProperties.step_unavailable.
    cbn [available]. now rewrite L.
Qed.

Lemma loading_follows_list_requests_witness :
  loading (ui (step Samples.searchingDal ClickSearch)) = true
  /\ loading (ui (step (step Samples.searchingDal ClickSearch)
                       (Settle 6 (Rejected Samples.serverDown)))) = false.
Proof.
  destruct loading_follows_list_requests as (Issue & Settled & _). split.
  - apply (Issue Samples.searchingDal ClickSearch (SearchRecipes "dal"));
      [vm_compute; apply list_elem_of_here | reflexivity].
  - apply (Settled (step Samples.searchingDal ClickSearch) 6%nat AwaitSearch
                   (Rejected Samples.serverDown));
      [vm_compute; reflexivity | now right | discriminate].
Defined.



End ListProperties.



(** * Further properties of the specific-generation tab *)

Module GenerationSearchProperties.

Import SpecificGeneration GenerationSearch.
Local Open Scope list_scope.

Section Single.

Variable w : World.
Hypothesis Inv : singleSearch w.

Lemma ss_update (f : State -> State) :
  (forall s, isSearching (f s) = isSearching s) -> singleSearch (update f w).
Proof.
  intros Frame. destruct Inv as [I1 I2 I3 I4].
  split; cbn [update ui awaiting next_request]; rewrite ?Frame; assumption.
Qed.

Lemma ss_perform (e : Effect) : singleSearch (perform e w).
Proof. destruct Inv as [I1 I2 I3 I4]. now split. Qed.

Lemma ss_setInterval (delay : Z) : singleSearch (setInterval delay w).
Proof. destruct Inv as [I1 I2 I3 I4]. now split. Qed.

Lemma ss_clearInterval (i : nat) : singleSearch (clearInterval i w).
Proof. destruct Inv as [I1 I2 I3 I4]. now split. Qed.

Lemma ss_await (e : Effect) (k : Continuation) :
  k <> AwaitSearch -> singleSearch (await e k w).
Proof.
  intros K. destruct Inv as [I1 I2 I3 I4].
  assert (Old : forall rid, awaiting (await e k w) !! rid = Some AwaitSearch ->
                            awaiting w !! rid = Some AwaitSearch).
  { cbn [await awaiting]. intros rid L.
    destruct (decide (next_request w = rid)) as [<-|NE].
    - rewrite lookup_insert_eq in L. congruence.
    - now rewrite lookup_insert_ne in L. }
  split; cbn [await ui next_request].
  - intros S rid L. apply (I1 S rid), Old, L.
  - intros rid rid' L L'. apply I2; now apply Old.
  - intros S. destruct (I3 S) as [rid L]. exists rid. cbn [await awaiting].
    rewrite lookup_insert_ne; [exact L|]. specialize (I4 rid _ L). lia.
  - cbn [await awaiting]. intros rid k' L.
    destruct (decide (next_request w = rid)) as [<-|NE].
    + lia.
    + rewrite lookup_insert_ne in L by exact NE. specialize (I4 rid k' L). lia.
Qed.

Lemma ss_settle_other (rid : nat) (k : Continuation) :
  awaiting w !! rid = Some k -> k <> AwaitSearch -> singleSearch (settle rid w).
Proof.
  intros A K. destruct Inv as [I1 I2 I3 I4]. split; cbn [settle ui awaiting next_request].
  - intros S rid' L. apply lookup_delete_Some in L as [_ L]. now apply (I1 S rid').
  - intros r1 r2 L1 L2. apply lookup_delete_Some in L1 as [_ L1].
    apply lookup_delete_Some in L2 as [_ L2]. now apply I2.
  - intros S. destruct (I3 S) as [rid' L]. exists rid'.
    apply lookup_delete_Some. split; [|exact L]. intros <-. congruence.
  - intros rid' k' L. apply lookup_delete_Some in L as [_ L]. now apply (I4 rid' k').
Qed.

Lemma ss_settle_search (rid : nat) :
  awaiting w !! rid = Some AwaitSearch -> noSearch (settle rid w).
Proof.
  intros A. destruct Inv as [I1 I2 I3 I4]. split; cbn [settle awaiting next_request].
  - intros rid' L. apply lookup_delete_Some in L as [NE L]. apply NE. now apply I2.
  - intros rid' k' L. apply lookup_delete_Some in L as [_ L]. now apply (I4 rid' k').
Qed.

Lemma ss_begin (q : string) :
  isSearching (ui w) = false ->
  singleSearch ((setIsSearching true ;; await (SearchRecipes q) AwaitSearch)%act w).
Proof.
  intros S. destruct Inv as [I1 I2 I3 I4]. unfold andThen.
  split; cbn [await update setIsSearching ui awaiting next_request isSearching].
  - discriminate.
  - intros r1 r2 L1 L2.
    destruct (decide (next_request w = r1)) as [<-|N1],
             (decide (next_request w = r2)) as [<-|N2]; try reflexivity.
    + rewrite lookup_insert_ne in L2 by exact N2. now destruct (I1 S r2).
    + rewrite lookup_insert_ne in L1 by exact N1. now destruct (I1 S r1).
    + rewrite lookup_insert_ne in L1 by exact N1. now destruct (I1 S r1).
  - intros _. exists (next_request w). apply lookup_insert_eq.
  - intros rid k' L. destruct (decide (next_request w = rid)) as [<-|NE].
    + lia.
    + rewrite lookup_insert_ne in L by exact NE. specialize (I4 rid k' L). lia.
Qed.

End Single.

Lemma no_search_update (w : World) (f : State -> State) :
  noSearch w -> noSearch (update f w).
Proof. intros [N F]. now split. Qed.

Lemma no_search_single (w : World) :
  noSearch w -> isSearching (ui w) = false -> singleSearch w.
Proof.
  intros [N F] S. split.
  - intros _. exact N.
  - intros rid rid' L. now destruct (N rid).
  - congruence.
  - exact F.
Qed.

Ltac keep_single :=
  repeat first
    [ assumption
    | apply ss_update; [|reflexivity]
    | apply ss_perform
    | apply ss_setInterval
    | apply ss_clearInterval
    | apply ss_await; [|discriminate] ].

Lemma ss_resume (w : World) (rid : nat) (k : Continuation) (r : Settlement) (rest : Action) :
  singleSearch w -> awaiting w !! rid = Some k -> resume k r = Some rest ->
  singleSearch (rest (settle rid w)).
Proof.
  intros Inv A R.
  destruct k as [| |j|j job].
  - pose proof (ss_settle_search w Inv rid A) as Quiet.
    destruct r as [[found|  |jobs|fetched]|e]; cbn in R; try discriminate;
      injection R as <-; unfold andThen, skip; repeat case_match;
      (apply no_search_single; [|reflexivity]);
      repeat apply no_search_update; exact Quiet.
  - pose proof (ss_settle_other w Inv rid _ A ltac:(discriminate)) as Kept.
    destruct r as [[found|  |jobs|fetched]|e]; cbn in R; try discriminate;
      injection R as <-; unfold andThen, skip; now keep_single.
  - pose proof (ss_settle_other w Inv rid _ A ltac:(discriminate)) as Kept.
    destruct r as [[found|  |[[|latest others]|]|fetched]|e]; cbn in R; try discriminate;
      injection R as <-; unfold andThen, skip; now keep_single.
  - pose proof (ss_settle_other w Inv rid _ A ltac:(discriminate)) as Kept.
    destruct r as [[found|  |jobs|fetched]|e]; cbn in R; try discriminate;
      injection R as <-; unfold andThen, skip; repeat case_match; now keep_single.
Qed.

Lemma ss_step (w : World) (ev : Event) : singleSearch w -> singleSearch (step w ev).
Proof.
  intros Inv. unfold step. destruct (available w ev) eqn:A; [|exact Inv].
  destruct ev; cbn [handler available] in *;
    unfold handleSearch, handleGenerate, poll, skip;
    repeat case_match; try exact Inv;
    try (apply ss_begin; [exact Inv|]; apply negb_true_iff in A;
         try apply orb_false_iff in A as [A _]; exact A);
    try (unfold andThen; now keep_single).
  eapply ss_resume; eassumption.
Qed.

Lemma ss_run (evs : list Event) (w : World) : singleSearch w -> singleSearch (run w evs).
Proof.
  revert w. induction evs as [|ev evs IH]; intros w Inv; [exact Inv|].
  cbn. apply IH, ss_step, Inv.
Qed.

Lemma ss_mounted : singleSearch mounted.
Proof.
  split; cbn; try discriminate; intros *; rewrite lookup_empty; discriminate.
Qed.

(** X12. The generation tab has at most one search in flight.  In every
    state it reaches from its mount, a search request is pending exactly
    while [isSearching] is set, and never two at once; and while one is
    pending the search box, Enter and the Search button are disabled, so
    no gesture can issue another. *)
Theorem one_search_at_a_time (evs : list Event) :
  let w := run mounted evs in
  (isSearching (ui w) = true <-> exists rid, awaiting w !! rid = Some AwaitSearch)
  /\ (forall rid rid',
        awaiting w !! rid = Some AwaitSearch -> awaiting w !! rid' = Some AwaitSearch ->
        rid = rid')
  /\ (isSearching (ui w) = true ->
      step w ClickSearch = w /\ step w PressEnter = w
      /\ forall text, step w (TypeSearchQuery text) = w).
Proof.
  intros w. pose proof (ss_run evs mounted ss_mounted) as [I1 I2 I3 I4].
  fold w in I1, I2, I3, I4. split; [|split].
  - split; [exact I3|]. intros [rid L].
    destruct (isSearching (ui w)) eqn:S; [reflexivity|]. now destruct (I1 eq_refl rid).
  - exact I2.
  - intros S. repeat split; intros;
      apply GenerationProperties.generation_step_unavailable; cbn [available];
      now rewrite S.
Qed.

End GenerationSearchProperties.


Module GenerationRunProperties.

Import SpecificGeneration GenerationSearch.
Local Open Scope list_scope.

Lemma resume_keeps_flags (k : Continuation) (r : Settlement) (rest : Action) (w : World) :
  resume k r = Some rest -> flags (ui (rest w)) = flags (ui w).
Proof.
  intros R.
  destruct k as [| |j|j job], r as [[found|  |[[|latest others]|]|fetched]|e];
    cbn in R; try discriminate; injection R as <-; unfold andThen, skip;
    repeat case_match; reflexivity.
Qed.

Lemma resume_keeps_selection (k : Continuation) (r : Settlement) (rest : Action)
    (w : World) :
  resume k r = Some rest -> selectedRecipe (ui (rest w)) = selectedRecipe (ui w).
Proof.
  intros R.
  destruct k as [| |j|j job], r as [[found|  |[[|latest others]|]|fetched]|e];
    cbn in R; try discriminate; injection R as <-; unfold andThen, skip;
    repeat case_match; reflexivity.
Qed.

Lemma resume_never_clears_message (k : Continuation) (r : Settlement) (rest : Action)
    (w : World) :
  resume k r = Some rest -> message (ui (rest w)) = None -> message (ui w) = None.
Proof.
  intros R.
  destruct k as [| |j|j job], r as [[found|  |[[|latest others]|]|fetched]|e];
    cbn in R; try discriminate; injection R as <-; unfold andThen, skip;
    repeat case_match; cbn; congruence.
Qed.

(** X13. The options are frozen while a generation is in progress.  As
    long as [isGenerating] is set no event changes any of the five option
    flags, and no event submits a generation request. *)
Theorem options_frozen_while_generating (w : World) (ev : Event) :
  isGenerating (ui w) = true ->
  flags (ui (step w ev)) = flags (ui w)
  /\ forall req, StartSpecificGeneration req ∉ added w ev.
Proof.
  intros G. split.
  - unfold step. destruct (available w ev) eqn:A; [|reflexivity].
    destruct ev; cbn [handler available] in *;
      unfold handleSearch, handleGenerate, poll, skip, andThen;
      repeat case_match; try reflexivity.
    + rewrite G in A. apply andb_true_iff in A as [_ A]. discriminate.
    + match goal with R : resume _ _ = Some ?rest |- _ =>
        apply (resume_keeps_flags _ _ rest (settle rid w) R) end.
  - intros req In.
    destruct (GenerationProperties.start_only_by_button w ev req In) as (_ & A & _).
    cbn [available] in A. unfold startButton in A. rewrite G in A.
    destruct (selectedRecipe (ui w)); discriminate.
Qed.

Lemma options_frozen_while_generating_witness :
  flags (ui (step Samples.polling (ToggleFix StepsText true))) = flags (ui Samples.polling)
  /\ forall req, StartSpecificGeneration req ∉ added Samples.polling (ToggleFix StepsText true).
Proof.
  apply (options_frozen_while_generating Samples.polling (ToggleFix StepsText true)).
  vm_compute. reflexivity.
Defined.

(** X14. A recipe, once selected, stays selected, and a message, once
    set, is cleared only by a start.  No event of the generation tab
    takes the selection away, so the options, the banner and the log
    panel stay rendered; and if an event leaves the message empty where
    there was one, the event is an enabled click on Start Generation
    (which also empties the log list and sets [isGenerating]). *)
Theorem selection_and_message_persist (w : World) (ev : Event) :
  (is_Some (selectedRecipe (ui w)) -> is_Some (selectedRecipe (ui (step w ev))))
  /\ (message (ui w) <> None -> message (ui (step w ev)) = None ->
      ev = ClickStart
      /\ logs (ui (step w ev)) = []
      /\ isGenerating (ui (step w ev)) = true).
Proof.
  split.
  - intros [chosen Sel]. unfold step.
    destruct (available w ev) eqn:A; [|rewrite Sel; eauto].
    destruct ev; cbn [handler available] in *;
      unfold handleSearch, handleGenerate, poll, skip, andThen;
      repeat case_match; try discriminate; cbn; rewrite ?Sel; eauto.
    match goal with R : resume _ _ = Some ?rest |- _ =>
      rewrite (resume_keeps_selection _ _ rest (settle rid w) R) end.
    cbn [settle ui]. rewrite Sel. eauto.
  - intros M. unfold step. destruct (available w ev) eqn:A; [|intros N; contradiction].
    destruct ev; cbn [handler available] in *;
      unfold handleSearch, handleGenerate, poll, skip, andThen;
      repeat case_match; cbn; try congruence; try (now repeat split).
    intros N. exfalso. apply M.
    match goal with R : resume _ _ = Some ?rest |- _ =>
      apply (resume_never_clears_message _ _ rest (settle rid w) R N) end.
Qed.

Lemma selection_and_message_persist_witness :
  is_Some (selectedRecipe (ui (step Samples.readyToGenerate (TypeSearchQuery "rasam")))).
Proof.
  destruct (selection_and_message_persist Samples.readyToGenerate (TypeSearchQuery "rasam"))
    as (Sel & _).
  apply Sel. vm_compute. eauto.
Defined.

(** X15. How a run ends for the operator.  When the logs of a fetched job
    with a terminal status arrive, the message is set: a success reading
    "Recipe updated successfully!" exactly for the status completed, and
    otherwise (failed and cancelled alike) an error reading "Generation
    failed. Check logs for details."; the banner shows it while a recipe is
    selected, and the Start button is enabled again exactly when an option
    is ticked. *)
Theorem run_outcome_is_reported (w : World) (rid i : nat) (job : Job)
    (fetched : list RegenerationLog) :
  awaiting w !! rid = Some (AwaitLogs i job) ->
  terminal (status job) = true ->
  let w' := step w (Settle rid (Fulfilled (LogsPayload fetched))) in
  ((status job = "completed"
    /\ message (ui w') = Some {| type := success; text := "Recipe updated successfully!" |})
   \/ ((status job = "failed" \/ status job = "cancelled")
       /\ message (ui w')
          = Some {| type := error; text := "Generation failed. Check logs for details." |}))
  /\ banner (ui w') = match selectedRecipe (ui w) with
                      | Some _ => message (ui w')
                      | None => None
                      end
  /\ startButton (ui w') = match selectedRecipe (ui w) with
                           | Some _ => Some (negb (atLeastOneOptionSelected (ui w)))
                           | None => None
                           end.
Proof.
  intros A T w'. subst w'.
  rewrite (GenerationProperties.settle_logs_terminal w rid i job fetched A T).
  split; [|split; reflexivity].
  apply GenerationProperties.terminal_spec in T. cbn. unfold outcomeMessage.
  destruct T as [C|[F|C]]; rewrite ?C, ?F; cbn; [left | right | right]; split; auto.
Qed.

Lemma run_outcome_is_reported_witness :
  let w := run mounted Samples.untilLogsOfCompletedJob in
  let w' := step w (Settle 3 (Fulfilled (LogsPayload [Samples.firstLog]))) in
  ((status Samples.completedJob = "completed"
    /\ message (ui w') = Some {| type := success; text := "Recipe updated successfully!" |})
   \/ ((status Samples.completedJob = "failed" \/ status Samples.completedJob = "cancelled")
       /\ message (ui w')
          = Some {| type := error; text := "Generation failed. Check logs for details." |}))
  /\ banner (ui w') = match selectedRecipe (ui w) with
                      | Some _ => message (ui w')
                      | None => None
                      end
  /\ startButton (ui w') = match selectedRecipe (ui w) with
                           | Some _ => Some (negb (atLeastOneOptionSelected (ui w)))
                           | None => None
                           end.
Proof.
  apply (run_outcome_is_reported (run mounted Samples.untilLogsOfCompletedJob) 3 0
           Samples.completedJob [Samples.firstLog]); vm_compute; reflexivity.
Defined.



End GenerationRunProperties.



(** * The preferences page and the navigation bar *)

Module PageProperties.

Import PreferencesPage.
Local Open Scope list_scope.

(** X17. What the preferences page shows.  It starts on the form.  After
    a submit the form is gone whatever was submitted: with a non-empty
    session id the chat is shown with that id and the recommendations,
    with an empty session id nothing is shown at all.  The page never
    shows the form and the chat together, and [handleBackToPreferences]
    after any submit gives the initial state back. *)
Theorem preferences_page_shows_form_or_chat :
  main initial = [PreferencesForm]
  /\ (forall s id recs,
        main (handlePreferencesSubmit id recs s)
        = if Js.truthy id then [ChatInterface id recs] else [])
  /\ (forall s, (length (main s) <= 1)%nat)
  /\ (forall s id recs,
        handleBackToPreferences (handlePreferencesSubmit id recs s) = initial
        /\ main (handleBackToPreferences (handlePreferencesSubmit id recs s))
           = [PreferencesForm]).
Proof.
  split; [reflexivity|]. split; [|split].
  - intros s id recs. unfold main. cbn. now destruct (Js.truthy id).
  - intros [st id recs]. unfold main. cbn. destruct st; [cbn; lia|].
    destruct (Js.truthy id); cbn; lia.
  - intros s id recs. split; reflexivity.
Qed.

(** X18. The navigation bar.  For every session status the bar holds the
    same seven link targets in the same order; only the label of the
    account link depends on the status: it reads "Dashboard" exactly when
    the status is authenticated and "Sign in" otherwise, and in both cases
    the link leads to the sign-in page. *)
Theorem nav_links_independent_of_status (status : CinematicNav.SessionStatus) :
  map CinematicNav.href (CinematicNav.links status)
  = ["/"; "/preferences"; "/chat"; "/history"; "/top-recipes"; "/auth/sign-in";
     "/preferences"]
  /\ (forall l, l ∈ CinematicNav.links status ->
        CinematicNav.label l = "Dashboard" \/ CinematicNav.label l = "Sign in" ->
        CinematicNav.href l = "/auth/sign-in")
  /\ ({| CinematicNav.href := "/auth/sign-in"; CinematicNav.label := "Dashboard" |}
        ∈ CinematicNav.links status
      <-> status = CinematicNav.authenticated)
  /\ ({| CinematicNav.href := "/auth/sign-in"; CinematicNav.label := "Sign in" |}
        ∈ CinematicNav.links status
      <-> status <> CinematicNav.authenticated).
Proof.
  split; [reflexivity|]. split; [|split].
  - intros l In Lab. unfold CinematicNav.links in In.
    repeat (apply elem_of_cons in In as [->|In];
            [destruct status; cbn in *; destruct Lab; first [discriminate | reflexivity]|]).
    now apply elem_of_nil in In.
  - split.
    + intros In. unfold CinematicNav.links in In.
      repeat (apply elem_of_cons in In as [E|In];
              [destruct status; cbn in E; first [discriminate E | reflexivity]|]).
      now apply elem_of_nil in In.
    + intros ->. cbn. do 5 apply list_elem_of_further. apply list_elem_of_here.
  - split.
    + intros In. unfold CinematicNav.links in In.
      repeat (apply elem_of_cons in In as [E|In];
              [destruct status; cbn in E; first [discriminate E | discriminate]|]).
      now apply elem_of_nil in In.
    + intros NE. destruct status; [contradiction| |];
        cbn; do 5 apply list_elem_of_further; apply list_elem_of_here.
Qed.

End PageProperties.
